(** * ralph_pricing: the usage report plugin

    A shallow embedding of [src/ralph_pricing/plugins/reports/usage.py]
    (class [UsageBasePlugin]) and the properties of its three public
    operations [usages], [total_cost] and [schema].

    Conventions of the embedding:
    - a [datetime.date] is its proleptic ordinal, an integer; the difference
      of two dates has [.days] equal to the difference of the ordinals;
    - Python numbers ([int], [float], [Decimal]) are the elements of an
      abstract carrier [num] with the four operations the module uses (the
      literal [0], [Decimal(x)], [+] and [*]); nothing is assumed about them
      unless a theorem says so, so rounding of [Decimal] or of floats is not
      idealised away;
    - the ORM is a store [DB] read through a state-and-exception monad [M];
      a Django [QuerySet] is lazy, it is a description of a query that is
      run against the store when the code iterates over it;
    - [ugettext_lazy] is the identity on the two sentinel messages, and
      [logger.debug] is not modelled;
    - [end] is a keyword, so the end of a range is [end_], and the fields
      [start] and [end] of a usage price are [up_start] and [up_end]. *)

From stdpp Require Import gmap strings list fin_maps pretty.

Local Open Scope Z_scope.

(** ** Python numbers *)

Class PyNum (num : Type) := {
  n0 : num;                    (* the int literal 0 *)
  D : num → num;               (* decimal.Decimal(x) *)
  nadd : num → num → num;      (* x + y *)
  nmul : num → num → num;      (* x * y *)
}.

(** Integers, used to run the model on concrete stores. *)
Definition PyNum_Z : PyNum Z :=
  {| n0 := 0; D := λ x, x; nadd := Z.add; nmul := Z.mul |}.

(** ** The entities of the data model *)

Definition date := Z.

Record Warehouse := {
  wh_id : Z;
  wh_name : string;
}.

Record Venture := {
  venture_id : Z;
  venture_name : string;
}.

Record UsageType := {
  ut_id : Z;
  ut_name : string;
  by_warehouse : bool;
  by_cost : bool;
}.

(** [up_type] and [up_warehouse] are the foreign keys [type_id] and
    [warehouse_id]; the latter is nullable. *)
Record UsagePrice (num : Type) := {
  up_type : Z;
  up_start : date;
  up_end : date;
  price : num;
  forecast_price : num;
  up_warehouse : option Z;
}.
Arguments up_type {num} _.
Arguments up_start {num} _.
Arguments up_end {num} _.
Arguments price {num} _.
Arguments forecast_price {num} _.
Arguments up_warehouse {num} _.

(** The stored records. *)
Record DB (num : Type) := {
  UsageType_objects : list UsageType;
  UsagePrice_objects : list (UsagePrice num);
  Venture_objects : list Venture;
  Warehouse_objects : list Warehouse;
}.
Arguments UsageType_objects {num} _.
Arguments UsagePrice_objects {num} _.
Arguments Venture_objects {num} _.
Arguments Warehouse_objects {num} _.

(** A row of [_get_usages_in_period_per_venture]: the dictionary
    [{'pricing_venture': ..., 'usage': ...}]. *)
Record UsageRow (num : Type) := {
  pricing_venture : Z;
  usage : num;
}.
Arguments pricing_venture {num} _.
Arguments usage {num} _.

(** A value stored in the report: a number or a sentinel message. *)
Inductive cell (num : Type) :=
| Num (x : num)
| Msg (s : string).
Arguments Num {num} _.
Arguments Msg {num} _.

Definition is_num {num} (c : cell num) : Prop :=
  match c with Num _ => True | Msg _ => False end.

(** An entry of the schema: the dictionary with the key ['name'] and the
    optional keys ['currency'] and ['total_cost'], which are only ever set
    to [True]; [false] stands for an absent key. *)
Record SchemaEntry := {
  name : string;
  currency : bool;
  total_cost_flag : bool;
}.

(** ** The monad of ORM computations

    A computation receives the store and returns a value, or [None] when
    an exception was raised, together with the store it leaves behind. *)

Section Monad.
Context {num : Type}.

Definition M (A : Type) : Type := DB num → option A * DB num.

Definition ret {A} (a : A) : M A := λ db, (Some a, db).

Definition bind {A B} (m : M A) (f : A → M B) : M B :=
  λ db, match m db with
        | (Some a, db') => f a db'
        | (None, db') => (None, db')
        end.

Definition raise {A} : M A := λ db, (None, db).

(** A read of the store. *)
Definition query {A} (q : DB num → A) : M A := λ db, (Some (q db), db).

(** [for x in l: s = body(s, x)] *)
Fixpoint for_each {A S} (body : S → A → M S) (l : list A) (s : S) : M S :=
  match l with
  | [] => ret s
  | x :: l' => bind (body s x) (for_each body l')
  end.
End Monad.
Global Arguments M : clear implicits.

Global Instance M_ret {num} : MRet (M num) := @ret num.
Global Instance M_bind {num} : MBind (M num) := λ A B f m, bind m f.

(** ** Query sets, dictionaries and column identifiers *)

Section Containers.
Context {num : Type} `{PyNum num}.

(** A lazy query over the table of usage prices. *)
Definition QuerySet : Type := DB num → list (UsagePrice num).

(** [usage_type.usageprice_set]: the related manager of the foreign key
    [UsagePrice.type]. *)
Definition usageprice_set (usage_type : UsageType) : QuerySet :=
  λ db, filter (λ up, up_type up = ut_id usage_type) (UsagePrice_objects db).

Definition qs_filter (P : UsagePrice num → Prop) `{∀ up, Decision (P up)}
    (qs : QuerySet) : QuerySet :=
  λ db, filter P (qs db).

(** [order_by('start')], as a stable insertion sort. *)
Fixpoint insert_by_start (up : UsagePrice num) (l : list (UsagePrice num))
    : list (UsagePrice num) :=
  match l with
  | [] => [up]
  | up' :: l' =>
      if decide (up_start up ≤ up_start up') then up :: l
      else up' :: insert_by_start up l'
  end.

Definition order_by_start (qs : QuerySet) : QuerySet :=
  λ db, foldr insert_by_start [] (qs db).

(** Iterating over a query set, or testing its truth value, runs it. *)
Definition fetch (qs : QuerySet) : M num (list (UsagePrice num)) := query qs.

(** [defaultdict(lambda: defaultdict(int))] *)
Definition dd_get (result : gmap Z (gmap string (cell num)))
    (venture : Z) (key : string) : cell num :=
  default (Num n0) (default ∅ (result !! venture) !! key).

Definition dd_set (result : gmap Z (gmap string (cell num)))
    (venture : Z) (key : string) (c : cell num)
    : gmap Z (gmap string (cell num)) :=
  <[venture := <[key := c]> (default ∅ (result !! venture))]> result.

(** [c + x]; adding a number to a message raises [TypeError]. *)
Definition cell_add (c : cell num) (x : num) : M num (cell num) :=
  match c with
  | Num y => ret (Num (nadd y x))
  | Msg _ => raise
  end.

(** [result[venture][key] += x] *)
Definition dd_iadd (result : gmap Z (gmap string (cell num)))
    (venture : Z) (key : string) (x : num)
    : M num (gmap Z (gmap string (cell num))) :=
  c ← cell_add (dd_get result venture key) x;
  ret (dd_set result venture key c).

(** [schema[k] = v] on an [OrderedDict]: a new key goes last, an old key
    keeps its place. *)
Fixpoint od_set {V} (k : string) (v : V) (od : list (string * V))
    : list (string * V) :=
  match od with
  | [] => [(k, v)]
  | (k', v') :: od' =>
      if decide (k = k') then (k, v) :: od' else (k', v') :: od_set k v od'
  end.

(** The format strings of the column identifiers. *)
Definition count_wh_key (ut wh : Z) : string :=
  "ut_" +:+ pretty ut +:+ "_count_wh_" +:+ pretty wh.
Definition cost_wh_key (ut wh : Z) : string :=
  "ut_" +:+ pretty ut +:+ "_cost_wh_" +:+ pretty wh.
Definition total_cost_fmt (ut : Z) : string :=
  "ut_" +:+ pretty ut +:+ "_total_cost".
Definition count_fmt (ut : Z) : string :=
  "ut_" +:+ pretty ut +:+ "_count".
Definition cost_fmt (ut : Z) : string :=
  "ut_" +:+ pretty ut +:+ "_cost".
End Containers.

(** ** The plugin *)

(** The methods [UsageBasePlugin] inherits from [BaseReportPlugin]
    (plugins/reports/base.py). Each of them is a query against the store. *)
Class BaseReportPlugin (num : Type) := {
  get_warehouses : DB num → list Warehouse;
  _get_price_from_cost :
    DB num → UsagePrice num → bool → option Warehouse → num;
  _get_total_usage_in_period :
    DB num → date → date → UsageType → option Warehouse → list Venture → num;
  _get_usages_in_period_per_venture :
    DB num → date → date → UsageType → option Warehouse → list Venture →
    list (UsageRow num);
}.

Section Plugin.
Context {num : Type} `{PyNum num} `{BaseReportPlugin num}.

(** [filter(end__gte=start, start__lte=end)] *)
Definition overlaps (start end_ : date) (up : UsagePrice num) : Prop :=
  start ≤ up_end up ∧ up_start up ≤ end_.

(** [filter(warehouse=warehouse)] *)
Definition of_warehouse (warehouse : Warehouse) (up : UsagePrice num) : Prop :=
  up_warehouse up = Some (wh_id warehouse).

Global Instance overlaps_dec start end_ up : Decision (overlaps start end_ up).
Proof. unfold overlaps. apply _. Defined.

Global Instance of_warehouse_dec warehouse up :
  Decision (of_warehouse warehouse up).
Proof. unfold of_warehouse. apply _. Defined.

Definition _incomplete_price (usage_type : UsageType) (start end_ : date)
    (warehouse : option Warehouse) : M num (option string) :=
  let total_days := (end_ - start) + 1 in
  let ut_days := 0 in
  let usage_prices := qs_filter (overlaps start end_) (usageprice_set usage_type) in
  let usage_prices :=
    match warehouse with
    | Some w =>
        if by_warehouse usage_type then qs_filter (of_warehouse w) usage_prices
        else usage_prices
    | None => usage_prices
    end in
  ups ← fetch usage_prices;
  ut_days ← for_each (λ ut_days up,
      ret (ut_days + ((Z.min end_ (up_end up) - Z.max start (up_start up)) + 1)))
    ups ut_days;
  if decide (ut_days = 0) then ret (Some "No price")
  else if decide (ut_days ≠ total_days) then ret (Some "Incomplete price")
  else ret None.

(** [self.get_warehouses()] or [[None]] *)
Definition warehouses_of (usage_type : UsageType) : M num (list (option Warehouse)) :=
  if by_warehouse usage_type then
    ws ← query get_warehouses; ret (Some <$> ws)
  else ret [None].

Definition _get_total_cost_by_warehouses (start end_ : date)
    (ventures : list Venture) (usage_type : UsageType) (forecast : bool)
    : M num (list num) :=
  warehouses ← warehouses_of usage_type;
  let result := [] in
  let total_cost := D n0 in
  '(result, total_cost) ← for_each (λ '(result, total_cost) warehouse,
      let usage_in_warehouse := n0 in
      let cost_in_warehouse := n0 in
      let usage_prices :=
        qs_filter (λ up, overlaps start end_ up ∧ up_type up = ut_id usage_type)
          (usageprice_set usage_type) in
      let usage_prices :=
        match warehouse with
        | Some w => qs_filter (of_warehouse w) usage_prices
        | None => usage_prices
        end in
      let usage_prices := order_by_start usage_prices in
      ups ← fetch usage_prices;
      '(usage_in_warehouse, cost_in_warehouse) ← for_each
        (λ '(usage_in_warehouse, cost_in_warehouse) usage_price,
          let price_ :=
            if forecast then forecast_price usage_price
            else price usage_price in
          price_ ←
            (if by_cost usage_type then
               query (λ db, _get_price_from_cost db usage_price forecast warehouse)
             else ret price_);
          let up_start_ := Z.max start (up_start usage_price) in
          let up_end_ := Z.min end_ (up_end usage_price) in
          total_usage ← query (λ db,
            _get_total_usage_in_period db up_start_ up_end_ usage_type
              warehouse ventures);
          let usage_in_warehouse := nadd usage_in_warehouse total_usage in
          let cost := nmul (D total_usage) price_ in
          let cost_in_warehouse := nadd cost_in_warehouse cost in
          ret (usage_in_warehouse, cost_in_warehouse))
        ups (usage_in_warehouse, cost_in_warehouse);
      let result := result ++ [usage_in_warehouse] in
      let cost_in_warehouse := D cost_in_warehouse in
      let result := result ++ [cost_in_warehouse] in
      let total_cost := nadd total_cost cost_in_warehouse in
      ret (result, total_cost))
    warehouses (result, total_cost);
  let result := if by_warehouse usage_type then result ++ [total_cost] else result in
  ret result.

(** [costs_by_wh[-1]]; an empty list raises [IndexError]. *)
Definition total_cost (start end_ : date) (ventures : list Venture)
    (usage_type : UsageType) (forecast : bool) : M num num :=
  costs_by_wh ← _get_total_cost_by_warehouses start end_ ventures usage_type forecast;
  match last costs_by_wh with
  | Some c => ret c
  | None => raise
  end.

(** The inner function [add_usages_per_venture]. Of the variables it
    closes over, [total_cost_key] is bound only for usage types by
    warehouse; reading it unbound raises [NameError]. [price_undefined]
    is [None] when the source has a false value ([False] or [None]) and
    the message otherwise: both messages are non-empty strings, hence
    true. *)
Definition add_usages_per_venture (usage_type : UsageType)
    (warehouse : option Warehouse) (ventures : list Venture)
    (price_undefined : option string) (count_key cost_key : string)
    (total_cost_key : option string)
    (up_start_ up_end_ : date) (price_ : num)
    (result : gmap Z (gmap string (cell num)))
    : M num (gmap Z (gmap string (cell num))) :=
  usages_per_venture ← query (λ db,
    _get_usages_in_period_per_venture db up_start_ up_end_ usage_type
      warehouse ventures);
  for_each (λ result v,
      let venture := pricing_venture v in
      result ← dd_iadd result venture count_key (usage v);
      let cost := nmul (D (usage v)) price_ in
      result ←
        match price_undefined with
        | Some msg => ret (dd_set result venture cost_key (Msg msg))
        | None => dd_iadd result venture cost_key cost
        end;
      if by_warehouse usage_type && bool_decide (price_undefined = None) then
        match total_cost_key with
        | Some key => dd_iadd result venture key cost
        | None => raise
        end
      else ret result)
    usages_per_venture result.

(** The column identifiers of one pass; [warehouse.id] of [None] raises
    [AttributeError]. *)
Definition pass_keys (usage_type : UsageType) (warehouse : option Warehouse)
    : M num (string * string * option string) :=
  if by_warehouse usage_type then
    match warehouse with
    | Some w =>
        ret (count_wh_key (ut_id usage_type) (wh_id w),
             cost_wh_key (ut_id usage_type) (wh_id w),
             Some (total_cost_fmt (ut_id usage_type)))
    | None => raise
    end
  else ret (count_fmt (ut_id usage_type), cost_fmt (ut_id usage_type), None).

(** The body of the loop over the warehouses. *)
Definition usages_in_warehouse (usage_type : UsageType) (start end_ : date)
    (forecast : bool) (ventures : list Venture) (no_price_msg : bool)
    (result : gmap Z (gmap string (cell num)))
    (warehouse : option Warehouse)
    : M num (gmap Z (gmap string (cell num))) :=
  price_undefined ←
    (if no_price_msg then _incomplete_price usage_type start end_ warehouse
     else ret None);
  let usage_prices := qs_filter (overlaps start end_) (usageprice_set usage_type) in
  let usage_prices :=
    match warehouse with
    | Some w => qs_filter (of_warehouse w) usage_prices
    | None => usage_prices
    end in
  let usage_prices := order_by_start usage_prices in
  '(count_key, cost_key, total_cost_key) ← pass_keys usage_type warehouse;
  ups ← fetch usage_prices;
  match ups with
  | _ :: _ =>
      for_each (λ result usage_price,
          let price_ :=
            if forecast then forecast_price usage_price
            else price usage_price in
          price_ ←
            (if by_cost usage_type then
               query (λ db, _get_price_from_cost db usage_price forecast warehouse)
             else ret price_);
          let up_start_ := Z.max start (up_start usage_price) in
          let up_end_ := Z.min end_ (up_end usage_price) in
          add_usages_per_venture usage_type warehouse ventures price_undefined
            count_key cost_key total_cost_key up_start_ up_end_ price_ result)
        ups result
  | [] =>
      add_usages_per_venture usage_type warehouse ventures price_undefined
        count_key cost_key total_cost_key start end_ n0 result
  end.

Definition _get_usages_per_warehouse (usage_type : UsageType)
    (start end_ : date) (forecast : bool) (ventures : list Venture)
    (no_price_msg : bool) : M num (gmap Z (gmap string (cell num))) :=
  warehouses ← warehouses_of usage_type;
  let result := ∅ in
  for_each
    (usages_in_warehouse usage_type start end_ forecast ventures no_price_msg)
    warehouses result.

Definition usages (start end_ : date) (ventures : list Venture)
    (usage_type : UsageType) (forecast no_price_msg : bool)
    : M num (gmap Z (gmap string (cell num))) :=
  _get_usages_per_warehouse usage_type start end_ forecast ventures no_price_msg.

Definition schema (usage_type : UsageType) : M num (list (string * SchemaEntry)) :=
  if by_warehouse usage_type then
    let schema := [] in
    ws ← query get_warehouses;
    schema ← for_each (λ schema warehouse,
        let count_key := count_wh_key (ut_id usage_type) (wh_id warehouse) in
        let cost_key := cost_wh_key (ut_id usage_type) (wh_id warehouse) in
        let schema := od_set count_key
          {| name := ut_name usage_type +:+ " count (" +:+ wh_name warehouse +:+ ")";
             currency := false; total_cost_flag := false |} schema in
        let schema := od_set cost_key
          {| name := ut_name usage_type +:+ " cost (" +:+ wh_name warehouse +:+ ")";
             currency := true; total_cost_flag := false |} schema in
        ret schema)
      ws schema;
    ret (od_set (total_cost_fmt (ut_id usage_type))
           {| name := ut_name usage_type +:+ " total cost";
              currency := true; total_cost_flag := true |} schema)
  else
    ret (od_set (cost_fmt (ut_id usage_type))
           {| name := ut_name usage_type +:+ " cost";
              currency := true; total_cost_flag := true |}
        (od_set (count_fmt (ut_id usage_type))
           {| name := ut_name usage_type +:+ " count";
              currency := false; total_cost_flag := false |} [])).
End Plugin.

(** * Specification

    The notions the properties of the plugin are stated with. *)

Section Outcome.
Context {num : Type}.

(** [m], run on [db], returns [a] and leaves the store as it was. *)
Definition returns {A} (m : M num A) (db : DB num) (a : A) : Prop :=
  m db = (Some a, db).

(** [m] leaves every store as it was, whether it returns or raises. *)
Definition read_only {A} (m : M num A) : Prop :=
  ∀ db, (m db).2 = db.
End Outcome.

Section Prices.
Context {num : Type}.

(** The price records of a usage type, restricted to the warehouse when
    the usage type is by warehouse and a warehouse is given. *)
Definition in_warehouse (usage_type : UsageType)
    (warehouse : option Warehouse) (up : UsagePrice num) : Prop :=
  match warehouse with
  | Some w => by_warehouse usage_type = true → up_warehouse up = Some (wh_id w)
  | None => True
  end.

Global Instance in_warehouse_dec usage_type warehouse up :
  Decision (in_warehouse usage_type warehouse up).
Proof. destruct warehouse; simpl; apply _. Defined.

Definition prices_of (usage_type : UsageType) (warehouse : option Warehouse)
    (db : DB num) : list (UsagePrice num) :=
  filter (λ up, up_type up = ut_id usage_type ∧
                in_warehouse usage_type warehouse up)
    (UsagePrice_objects db).

(** The record defines a price on day [d]. *)
Definition covers (d : date) (up : UsagePrice num) : Prop :=
  up_start up ≤ d ≤ up_end up.

(** Day [d] has a price defined by one of the records. *)
Definition priced (ups : list (UsagePrice num)) (d : date) : Prop :=
  Exists (covers d) ups.

Global Instance covers_dec d up : Decision (covers d up).
Proof. unfold covers. apply _. Defined.

Global Instance priced_dec ups d : Decision (priced ups d).
Proof. unfold priced. apply _. Defined.

(** Two records share no day. *)
Definition disjoint_prices (up1 up2 : UsagePrice num) : Prop :=
  up_end up1 < up_start up2 ∨ up_end up2 < up_start up1.

(** No two records of the list, at different positions, share a day. *)
Fixpoint pairwise_disjoint (ups : list (UsagePrice num)) : Prop :=
  match ups with
  | [] => True
  | up :: ups' => Forall (disjoint_prices up) ups' ∧ pairwise_disjoint ups'
  end.

(** The number of days of [[start, start + n)] that have a price. *)
Fixpoint priced_days (ups : list (UsagePrice num)) (start : date) (n : nat) : Z :=
  match n with
  | O => 0
  | S n' =>
      (if decide (priced ups start) then 1 else 0)
      + priced_days ups (start + 1) n'
  end.
End Prices.

(** ** Usage and cost of a report *)

Section Costs.
Context {num : Type} `{PyNum num} `{BaseReportPlugin num}.

(** [Σ] with Python's [+], from the int [0], in the order of the list. *)
Definition sum_over {A} (l : list A) (f : A → num) : num :=
  foldl (λ acc x, nadd acc (f x)) n0 l.

(** The price records of the usage type that overlap the range, for one
    pass over a warehouse, in the order the report reads them. *)
Definition report_prices (usage_type : UsageType) (start end_ : date)
    (warehouse : option Warehouse) (db : DB num) : list (UsagePrice num) :=
  foldr insert_by_start []
    (filter (λ up, start ≤ up_end up ∧ up_start up ≤ end_)
       (prices_of usage_type warehouse db)).

(** The price applied to a record. *)
Definition applied_price (usage_type : UsageType) (forecast : bool)
    (warehouse : option Warehouse) (db : DB num) (up : UsagePrice num) : num :=
  if by_cost usage_type then _get_price_from_cost db up forecast warehouse
  else if forecast then forecast_price up
  else price up.

(** The sub-period of a record inside the range. *)
Definition clip (start end_ : date) (up : UsagePrice num) : date * date :=
  (Z.max start (up_start up), Z.min end_ (up_end up)).

(** The total usage in the clipped sub-period of a record, and its cost. *)
Definition record_usage (usage_type : UsageType) (start end_ : date)
    (ventures : list Venture) (warehouse : option Warehouse) (db : DB num)
    (up : UsagePrice num) : num :=
  _get_total_usage_in_period db (clip start end_ up).1 (clip start end_ up).2
    usage_type warehouse ventures.

Definition record_cost (usage_type : UsageType) (start end_ : date)
    (ventures : list Venture) (forecast : bool)
    (warehouse : option Warehouse) (db : DB num) (up : UsagePrice num) : num :=
  nmul (D (record_usage usage_type start end_ ventures warehouse db up))
    (applied_price usage_type forecast warehouse db up).

(** The warehouses a report passes over. *)
Definition report_warehouses (usage_type : UsageType) (db : DB num)
    : list (option Warehouse) :=
  if by_warehouse usage_type then Some <$> get_warehouses db else [None].

Definition warehouse_usage (usage_type : UsageType) (start end_ : date)
    (ventures : list Venture) (db : DB num) (warehouse : option Warehouse) : num :=
  sum_over (report_prices usage_type start end_ warehouse db)
    (record_usage usage_type start end_ ventures warehouse db).

Definition warehouse_cost (usage_type : UsageType) (start end_ : date)
    (ventures : list Venture) (forecast : bool) (db : DB num)
    (warehouse : option Warehouse) : num :=
  sum_over (report_prices usage_type start end_ warehouse db)
    (record_cost usage_type start end_ ventures forecast warehouse db).

(** The total cost of a usage type over the range: the sum over the
    warehouses and over the price records. *)
Definition cost_of_report (usage_type : UsageType) (start end_ : date)
    (ventures : list Venture) (forecast : bool) (db : DB num) : num :=
  sum_over (report_warehouses usage_type db)
    (warehouse_cost usage_type start end_ ventures forecast db).

(** The same sum with the conversions to [Decimal] the code makes on the
    way: each warehouse's cost is converted, and the sum over the
    warehouses of a usage type by warehouse starts from [Decimal(0)]. *)
Definition cost_of_report_decimal (usage_type : UsageType) (start end_ : date)
    (ventures : list Venture) (forecast : bool) (db : DB num) : num :=
  if by_warehouse usage_type then
    foldl (λ acc w,
        nadd acc (D (warehouse_cost usage_type start end_ ventures forecast db w)))
      (D n0) (report_warehouses usage_type db)
  else D (warehouse_cost usage_type start end_ ventures forecast db None).
End Costs.

(** ** The cells of a usage report *)

Section Aggregation.
Context {num : Type} `{PyNum num} `{BaseReportPlugin num}.

(** The value under a venture and a column identifier, if any. *)
Definition cell_at (result : gmap Z (gmap string (cell num)))
    (venture : Z) (key : string) : option (cell num) :=
  result !! venture ≫= (.!! key).

(** The number in a cell; a cell made by [defaultdict(int)] holds [0]. *)
Definition cell_num (c : option (cell num)) : num :=
  match c with
  | Some (Num x) => x
  | _ => n0
  end.

(** The cell after [+=] of the numbers of [xs], in their order. *)
Definition accumulate (old : option (cell num)) (xs : list num)
    : option (cell num) :=
  match xs with
  | [] => old
  | _ :: _ => Some (Num (foldl nadd (cell_num old) xs))
  end.

(** The cell after one assignment of the message for each of [xs]. *)
Definition overwrite (old : option (cell num)) (msg : string) (xs : list num)
    : option (cell num) :=
  match xs with
  | [] => old
  | _ :: _ => Some (Msg msg)
  end.

(** The message [_incomplete_price] answers with. *)
Definition price_message (usage_type : UsageType) (start end_ : date)
    (warehouse : option Warehouse) (db : DB num) : option string :=
  let ut_days :=
    foldl (λ acc up,
        acc + (Z.min end_ (up_end up) - Z.max start (up_start up) + 1))
      0 (filter (λ up, start ≤ up_end up ∧ up_start up ≤ end_)
           (prices_of usage_type warehouse db)) in
  if decide (ut_days = 0) then Some "No price"
  else if decide (ut_days ≠ end_ - start + 1) then Some "Incomplete price"
  else None.

(** [price_undefined] in the pass over a warehouse. *)
Definition pass_message (usage_type : UsageType) (start end_ : date)
    (no_price_msg : bool) (warehouse : option Warehouse) (db : DB num)
    : option string :=
  if no_price_msg then price_message usage_type start end_ warehouse db
  else None.

(** The identifier of the warehouse of a pass, if it has one. *)
Definition pass_id (warehouse : option Warehouse) : option Z :=
  wh_id <$> warehouse.

(** The column identifiers of the pass over a warehouse. *)
Definition count_key_of (usage_type : UsageType) (warehouse : option Warehouse)
    : string :=
  match warehouse with
  | Some w => count_wh_key (ut_id usage_type) (wh_id w)
  | None => count_fmt (ut_id usage_type)
  end.

Definition cost_key_of (usage_type : UsageType) (warehouse : option Warehouse)
    : string :=
  match warehouse with
  | Some w => cost_wh_key (ut_id usage_type) (wh_id w)
  | None => cost_fmt (ut_id usage_type)
  end.

(** The periods of one pass with the price applied in each: the clipped
    sub-periods of the price records that overlap the range, or the whole
    range at the price [0] when there is none. *)
Definition pass_periods (usage_type : UsageType) (start end_ : date)
    (forecast : bool) (warehouse : option Warehouse) (db : DB num)
    : list (date * date * num) :=
  match report_prices usage_type start end_ warehouse db with
  | [] => [(start, end_, n0)]
  | ups =>
      (λ up, (clip start end_ up, applied_price usage_type forecast warehouse db up))
        <$> ups
  end.

(** The usage rows of one pass, each with the price of its period. *)
Definition pass_rows (usage_type : UsageType) (start end_ : date)
    (forecast : bool) (ventures : list Venture)
    (warehouse : option Warehouse) (db : DB num)
    : list (num * UsageRow num) :=
  mjoin ((λ '(up_start_, up_end_, price_),
           (λ v, (price_, v)) <$>
             _get_usages_in_period_per_venture db up_start_ up_end_
               usage_type warehouse ventures)
         <$> pass_periods usage_type start end_ forecast warehouse db).

(** The usages of a venture among the rows, and their costs. *)
Definition venture_usages (venture : Z) (rows : list (num * UsageRow num))
    : list num :=
  (λ pv, usage pv.2) <$> filter (λ pv, pricing_venture pv.2 = venture) rows.

Definition venture_costs (venture : Z) (rows : list (num * UsageRow num))
    : list num :=
  (λ pv, nmul (D (usage pv.2)) pv.1)
    <$> filter (λ pv, pricing_venture pv.2 = venture) rows.

(** A cell after the rows of a pass with the column identifiers
    [count_key], [cost_key] and, for a usage type by warehouse,
    [total_cost_key]: usage goes to the count; cost goes to the cost and
    to the total cost, unless the price is undefined, and then the message
    takes the place of the cost. *)
Definition cell_after (by_wh : bool) (price_undefined : option string)
    (count_key cost_key total_cost_key : string)
    (rows : list (num * UsageRow num))
    (venture : Z) (key : string) (old : option (cell num))
    : option (cell num) :=
  if decide (key = count_key) then accumulate old (venture_usages venture rows)
  else if decide (key = cost_key) then
    match price_undefined with
    | Some msg => overwrite old msg (venture_usages venture rows)
    | None => accumulate old (venture_costs venture rows)
    end
  else if decide (key = total_cost_key) then
    if by_wh && bool_decide (price_undefined = None)
    then accumulate old (venture_costs venture rows)
    else old
  else old.

(** The cells a pass adds numbers to hold no message. *)
Definition ready (by_wh : bool) (price_undefined : option string)
    (count_key cost_key total_cost_key : string)
    (result : gmap Z (gmap string (cell num))) : Prop :=
  ∀ venture msg,
    cell_at result venture count_key ≠ Some (Msg msg) ∧
    (price_undefined = None →
     cell_at result venture cost_key ≠ Some (Msg msg)) ∧
    (by_wh = true → price_undefined = None →
     cell_at result venture total_cost_key ≠ Some (Msg msg)).

(** A cell after the pass over a warehouse. *)
Definition pass_cell (usage_type : UsageType) (start end_ : date)
    (forecast : bool) (ventures : list Venture) (no_price_msg : bool)
    (db : DB num) (warehouse : option Warehouse)
    (venture : Z) (key : string) (old : option (cell num))
    : option (cell num) :=
  cell_after (by_warehouse usage_type)
    (pass_message usage_type start end_ no_price_msg warehouse db)
    (count_key_of usage_type warehouse) (cost_key_of usage_type warehouse)
    (total_cost_fmt (ut_id usage_type))
    (pass_rows usage_type start end_ forecast ventures warehouse db)
    venture key old.

(** A cell of the report: the passes over the warehouses, in order. *)
Definition report_cell (usage_type : UsageType) (start end_ : date)
    (forecast : bool) (ventures : list Venture) (no_price_msg : bool)
    (db : DB num) (venture : Z) (key : string) : option (cell num) :=
  foldl (λ old w,
      pass_cell usage_type start end_ forecast ventures no_price_msg db w
        venture key old)
    None (report_warehouses usage_type db).
End Aggregation.

(** ** The columns of the schema *)

Section Columns.
(** The two columns of a warehouse: a count, then a cost in currency. *)
Definition warehouse_columns (usage_type : UsageType) (w : Warehouse)
    : list (string * SchemaEntry) :=
  [(count_wh_key (ut_id usage_type) (wh_id w),
    {| name := ut_name usage_type +:+ " count (" +:+ wh_name w +:+ ")";
       currency := false; total_cost_flag := false |});
   (cost_wh_key (ut_id usage_type) (wh_id w),
    {| name := ut_name usage_type +:+ " cost (" +:+ wh_name w +:+ ")";
       currency := true; total_cost_flag := false |})].

(** The columns in rendering order. *)
Definition schema_columns (usage_type : UsageType) (ws : list Warehouse)
    : list (string * SchemaEntry) :=
  if by_warehouse usage_type then
    mjoin (warehouse_columns usage_type <$> ws)
    ++ [(total_cost_fmt (ut_id usage_type),
         {| name := ut_name usage_type +:+ " total cost";
            currency := true; total_cost_flag := true |})]
  else
    [(count_fmt (ut_id usage_type),
      {| name := ut_name usage_type +:+ " count";
         currency := false; total_cost_flag := false |});
     (cost_fmt (ut_id usage_type),
      {| name := ut_name usage_type +:+ " cost";
         currency := true; total_cost_flag := true |})].
End Columns.

(** ** Runs *)

Section Runs.
Context {num : Type} `{PyNum num} `{BaseReportPlugin num}.




End Runs.

(** ** What a computation returns *)

Section Ensures.
Context {num : Type}.

(** Whatever [m] returns, on whatever store, satisfies [Q]. *)
Definition ensures {A} (m : M num A) (Q : A → Prop) : Prop :=
  ∀ db a db', m db = (Some a, db') → Q a.

(** Every venture of the mapping has a column. *)
Definition no_empty_venture (result : gmap Z (gmap string (cell num))) : Prop :=
  ∀ venture m, result !! venture = Some m → m ≠ ∅.
End Ensures.

(** ** Sample stores

    Small stores over integer arithmetic, on which the model is run. *)

Module Sample.
Definition power : UsageType :=
  {| ut_id := 7; ut_name := "Power"; by_warehouse := false; by_cost := false |}.

Definition price_record (type : Z) (start end_ : date) (price_ forecast : Z)
    (warehouse : option Z) : UsagePrice Z :=
  {| up_type := type; up_start := start; up_end := end_; price := price_;
     forecast_price := forecast; up_warehouse := warehouse |}.

Definition store (prices : list (UsagePrice Z)) (whs : list Warehouse) : DB Z :=
  {| UsageType_objects := [power]; UsagePrice_objects := prices;
     Venture_objects := []; Warehouse_objects := whs |}.

(** Two price records for the same days. *)
Definition twice : DB Z :=
  store [price_record 7 1 5 2 3 None; price_record 7 1 5 2 3 None] [].

(** Two price records that follow each other. *)
Definition split : DB Z :=
  store [price_record 7 1 5 2 3 None; price_record 7 6 10 4 5 None] [].

(** A usage type by warehouse, two warehouses, and a price for the first
    five days in the first warehouse only. *)
Definition rack : UsageType :=
  {| ut_id := 8; ut_name := "Rack"; by_warehouse := true; by_cost := false |}.

Definition wh_a : Warehouse := {| wh_id := 1; wh_name := "A" |}.
Definition wh_b : Warehouse := {| wh_id := 2; wh_name := "B" |}.

Definition racks : DB Z :=
  store [price_record 8 1 5 2 3 (Some 1)] [wh_a; wh_b].

(** Inherited queries to run the plugin with: the warehouses are those
    stored, a price from cost is 1, the total usage is one unit a day, and
    the usage per venture is one unit a day for venture 1 and ten units
    for venture 2. *)
Definition base : BaseReportPlugin Z := {|
  get_warehouses := Warehouse_objects;
  _get_price_from_cost := λ _ _ _ _, 1;
  _get_total_usage_in_period := λ _ start end_ _ _ _, end_ - start + 1;
  _get_usages_in_period_per_venture := λ _ start end_ _ _ _,
    [{| pricing_venture := 1; usage := end_ - start + 1 |};
     {| pricing_venture := 2; usage := 10 |}];
|}.
End Sample.

(** * Reasoning about ORM computations *)

Section Reasoning.
Context {num : Type}.

Lemma returns_ret {A} (a : A) (db : DB num) : returns (ret a) db a.
Proof. reflexivity. Qed.

Lemma returns_query {A} (q : DB num → A) db : returns (query q) db (q db).
Proof. reflexivity. Qed.

Lemma returns_bind {A B} (m : M num A) (f : A → M num B) db a b :
  returns m db a → returns (f a) db b → returns (m ≫= f) db b.
Proof.
  unfold returns, mbind, M_bind, bind. intros -> ->. reflexivity.
Qed.

Lemma returns_for_each {A S} (body : S → A → M num S) (g : S → A → S) l s db :
  (∀ s x, x ∈ l → returns (body s x) db (g s x)) →
  returns (for_each body l s) db (foldl g s l).
Proof.
  revert s. induction l as [|x l IH]; intros s Hbody.
  - reflexivity.
  - simpl. apply (returns_bind (body s x) _ db (g s x)).
    + apply Hbody. left.
    + apply IH. intros s' y Hy. apply Hbody. by right.
Qed.

Lemma read_only_ret {A} (a : A) : read_only (@ret num A a).
Proof. intros db. reflexivity. Qed.

Lemma read_only_raise {A} : read_only (@raise num A).
Proof. intros db. reflexivity. Qed.

Lemma read_only_query {A} (q : DB num → A) : read_only (query q).
Proof. intros db. reflexivity. Qed.

Lemma read_only_bind {A B} (m : M num A) (f : A → M num B) :
  read_only m → (∀ a, read_only (f a)) → read_only (m ≫= f).
Proof.
  intros Hm Hf db. unfold mbind, M_bind, bind.
  specialize (Hm db). destruct (m db) as [[a|] db']; simpl in *; subst.
  - apply Hf.
  - reflexivity.
Qed.

Lemma read_only_for_each {A S} (body : S → A → M num S) l s :
  (∀ s x, read_only (body s x)) → read_only (for_each body l s).
Proof.
  intros Hbody. revert s. induction l as [|x l IH]; intros s; simpl.
  - apply read_only_ret.
  - apply (read_only_bind (body s x)); [apply Hbody | apply IH].
Qed.

End Reasoning.

(** * Counting the days that have a price *)

Section PricedDays.
Context {num : Type}.
Implicit Types (up : UsagePrice num) (ups : list (UsagePrice num)).
Implicit Types (d s e : date) (n : nat).
Local Coercion Z.of_nat : nat >-> Z.

Lemma priced_cons up ups d : priced (up :: ups) d ↔ covers d up ∨ priced ups d.
Proof. unfold priced. apply Exists_cons. Qed.

Lemma priced_nil d : ¬ priced (@nil (UsagePrice num)) d.
Proof. unfold priced. intros Hp. by apply Exists_nil in Hp. Qed.

Lemma priced_days_range ups s n : 0 ≤ priced_days ups s n ≤ n.
Proof.
  revert s. induction n as [|n IH]; intros s; simpl; [lia|].
  specialize (IH (s + 1)). case_decide; lia.
Qed.

Lemma priced_days_all ups s n :
  priced_days ups s n = n ↔ ∀ d, s ≤ d < s + n → priced ups d.
Proof.
  revert s. induction n as [|n IH]; intros s; simpl.
  - split; [intros _ d ?; lia | done].
  - pose proof (priced_days_range ups (s + 1) n) as Hr.
    specialize (IH (s + 1)). case_decide as Hp.
    + split.
      * intros Hn d Hd. destruct (decide (d = s)) as [->|]; [done|].
        apply IH; lia.
      * intros Hall. cut (priced_days ups (s + 1) n = n); [lia|].
        apply IH. intros d Hd. apply Hall. lia.
    + split; [lia|]. intros Hall. destruct Hp. apply Hall. lia.
Qed.

Lemma priced_days_none ups s n :
  priced_days ups s n = 0 ↔ ∀ d, s ≤ d < s + n → ¬ priced ups d.
Proof.
  revert s. induction n as [|n IH]; intros s; simpl.
  - split; [intros _ d ?; lia | done].
  - pose proof (priced_days_range ups (s + 1) n) as Hr.
    specialize (IH (s + 1)). case_decide as Hp.
    + split; [lia|]. intros Hnone. destruct (Hnone s); [lia | done].
    + split.
      * intros Hn d Hd. destruct (decide (d = s)) as [->|]; [done|].
        apply IH; lia.
      * intros Hnone. cut (priced_days ups (s + 1) n = 0); [lia|].
        apply IH. intros d Hd. apply Hnone. lia.
Qed.

(** One record prices the days of its intersection with the range. *)
Lemma priced_days_one up s n :
  priced_days [up] s n
  = Z.max 0 (Z.min (s + n - 1) (up_end up) - Z.max s (up_start up) + 1).
Proof.
  revert s. induction n as [|n IH]; intros s; simpl; [lia|].
  rewrite IH. case_decide as Hp.
  - apply priced_cons in Hp as [Hc|Hp]; [| by apply priced_nil in Hp].
    unfold covers in Hc. lia.
  - assert (¬ covers s up) as Hc.
    { intros Hc. apply Hp, priced_cons. by left. }
    unfold covers in Hc. lia.
Qed.

(** Records that share no day price disjoint sets of days. *)
Lemma priced_days_cons up ups s n :
  Forall (disjoint_prices up) ups →
  priced_days (up :: ups) s n = priced_days [up] s n + priced_days ups s n.
Proof.
  intros Hdis. revert s. induction n as [|n IH]; intros s; simpl; [done|].
  rewrite IH.
  assert (covers s up → ¬ priced ups s) as Hexcl.
  { intros Hc Hp. unfold priced in Hp. apply Exists_exists in Hp as (up' & Hin & Hc').
    rewrite Forall_forall in Hdis. specialize (Hdis up' Hin).
    unfold disjoint_prices, covers in *. lia. }
  repeat case_decide;
    repeat match goal with
    | Hp : priced (_ :: _) _ |- _ => apply priced_cons in Hp
    | Hp : ¬ priced (_ :: _) _ |- _ => rewrite priced_cons in Hp
    end; try lia.
  all: try (exfalso; pose proof (@priced_nil s); tauto).
Qed.

Lemma priced_days_some ups s n :
  0 < priced_days ups s n ↔ ∃ d, s ≤ d < s + n ∧ priced ups d.
Proof.
  pose proof (priced_days_range ups s n) as Hr.
  pose proof (priced_days_none ups s n) as Hnone. split.
  - revert s Hr Hnone. induction n as [|n IH]; intros s Hr Hnone; simpl; [lia|].
    case_decide as Hp.
    + intros _. exists s. split; [lia | done].
    + intros Hpos. destruct (IH (s + 1)) as (d & Hd & Hpd).
      * apply priced_days_range.
      * apply priced_days_none.
      * lia.
      * exists d. split; [lia | done].
  - intros (d & Hd & Hpd). destruct (decide (priced_days ups s n = 0)) as [H0|]; [|lia].
    destruct (proj1 Hnone H0 d Hd Hpd).
Qed.

Lemma priced_days_hole ups s n :
  priced_days ups s n < n ↔ ∃ d, s ≤ d < s + n ∧ ¬ priced ups d.
Proof.
  pose proof (priced_days_range ups s n) as Hr.
  pose proof (priced_days_all ups s n) as Hall. split.
  - revert s Hr Hall. induction n as [|n IH]; intros s Hr Hall; simpl; [lia|].
    case_decide as Hp.
    + intros Hlt. destruct (IH (s + 1)) as (d & Hd & Hpd).
      * apply priced_days_range.
      * apply priced_days_all.
      * lia.
      * exists d. split; [lia | done].
    + intros _. exists s. split; [lia | done].
  - intros (d & Hd & Hpd). destruct (decide (priced_days ups s n = n)) as [Hn|]; [|lia].
    destruct Hpd. by apply Hall.
Qed.

(** The sum the code computes is the number of priced days, when the
    records considered are well formed and pairwise disjoint. *)
Lemma overlap_sum_priced_days ups s e n (acc : Z) :
  (0 < n)%nat →
  e = s + n - 1 →
  Forall (λ up, s ≤ up_end up ∧ up_start up ≤ e ∧
                up_start up ≤ up_end up) ups →
  pairwise_disjoint ups →
  foldl (λ acc up, acc + (Z.min e (up_end up) - Z.max s (up_start up) + 1))
    acc ups
  = acc + priced_days ups s n.
Proof.
  intros Hn ->. revert acc. induction ups as [|up ups IH]; intros acc Hwf Hdis.
  - simpl. assert (priced_days (@nil (UsagePrice num)) s n = 0) as ->; [|lia].
    apply priced_days_none. intros d _. apply priced_nil.
  - inversion_clear Hwf as [|?? Hup Hwf']. destruct Hdis as [Hd Hdis].
    simpl. rewrite IH by done. rewrite (priced_days_cons up ups) by done.
    rewrite priced_days_one. lia.
Qed.
End PricedDays.

(** * [_incomplete_price] *)

Section IncompletePrice.
Context {num : Type}.
Implicit Types (up : UsagePrice num) (db : DB num).
Implicit Types (usage_type : UsageType) (warehouse : option Warehouse).

(** The records the loop of [_incomplete_price] iterates over. *)
Lemma incomplete_price_records usage_type start end_ warehouse db :
  match warehouse with
  | Some w =>
      if by_warehouse usage_type then
        qs_filter (of_warehouse w)
          (qs_filter (overlaps start end_) (usageprice_set usage_type))
      else qs_filter (overlaps start end_) (usageprice_set usage_type)
  | None => qs_filter (overlaps start end_) (usageprice_set usage_type)
  end db
  = filter (overlaps start end_) (prices_of usage_type warehouse db).
Proof.
  unfold prices_of, qs_filter, usageprice_set.
  destruct warehouse as [w|]; [destruct (by_warehouse usage_type) eqn:Hbw|];
    rewrite !list_filter_filter; apply list_filter_iff; intros up;
    unfold in_warehouse, of_warehouse; rewrite ?Hbw; intuition congruence.
Qed.

(** The value [_incomplete_price] returns, from the sum of the
    overlapping days. *)
Lemma incomplete_price_returns usage_type start end_ warehouse db :
  let ut_days :=
    foldl (λ acc up,
        acc + (Z.min end_ (up_end up) - Z.max start (up_start up) + 1))
      0 (filter (overlaps start end_) (prices_of usage_type warehouse db)) in
  returns (_incomplete_price usage_type start end_ warehouse) db
    (if decide (ut_days = 0) then Some "No price"
     else if decide (ut_days ≠ end_ - start + 1) then Some "Incomplete price"
     else None).
Proof.
  intros ut_days. unfold _incomplete_price.
  eapply returns_bind; [apply returns_query|].
  rewrite incomplete_price_records.
  eapply returns_bind.
  { apply returns_for_each
      with (g := λ acc up,
              acc + (Z.min end_ (up_end up) - Z.max start (up_start up) + 1)).
    intros acc up _. apply returns_ret. }
  fold ut_days. repeat case_decide; apply returns_ret.
Qed.

(** A day of the range is priced by a record that overlaps the range. *)
Lemma priced_overlapping (ups : list (UsagePrice num)) start end_ d :
  start ≤ d ≤ end_ →
  priced ups d ↔ priced (filter (overlaps start end_) ups) d.
Proof.
  intros Hd. unfold priced. rewrite !Exists_exists. split.
  - intros (up & Hin & Hc). exists up. split; [|done].
    apply list_elem_of_filter. split; [|done].
    unfold overlaps, covers in *. lia.
  - intros (up & Hin & Hc). exists up. split; [|done].
    by apply list_elem_of_filter in Hin as [_ ?].
Qed.

(** The number of priced days of the range, as [_incomplete_price]
    computes it. *)
Lemma incomplete_price_priced_days usage_type start end_ warehouse db :
  start ≤ end_ →
  Forall (λ up, up_start up ≤ up_end up)
    (filter (overlaps start end_) (prices_of usage_type warehouse db)) →
  pairwise_disjoint
    (filter (overlaps start end_) (prices_of usage_type warehouse db)) →
  foldl (λ acc up,
      acc + (Z.min end_ (up_end up) - Z.max start (up_start up) + 1))
    0 (filter (overlaps start end_) (prices_of usage_type warehouse db))
  = priced_days (filter (overlaps start end_) (prices_of usage_type warehouse db))
      start (Z.to_nat (end_ - start + 1)).
Proof.
  intros Hse Hwf Hdis.
  set (ups := filter (overlaps start end_) (prices_of usage_type warehouse db)) in *.
  set (n := Z.to_nat (end_ - start + 1)).
  rewrite (overlap_sum_priced_days ups start end_ n); [lia | lia | lia | | done].
  apply Forall_forall. intros up Hin.
  rewrite Forall_forall in Hwf. specialize (Hwf up Hin).
  apply list_elem_of_filter in Hin as [Hov _]. unfold overlaps in Hov. lia.
Qed.

(** When the range is not empty and the price records of the usage type
    that overlap it (those of the warehouse, for a usage type by warehouse
    and a given warehouse) are well formed and pairwise disjoint,
    [_incomplete_price] returns ['No price'] exactly when no record
    overlaps the range, ['Incomplete price'] exactly when some but not all
    days of the range have a price, and [None] exactly when every day of
    the range has a price. *)
Theorem incomplete_price_sentinels usage_type start end_ warehouse db :
  start ≤ end_ →
  Forall (λ up, up_start up ≤ up_end up)
    (filter (overlaps start end_) (prices_of usage_type warehouse db)) →
  pairwise_disjoint
    (filter (overlaps start end_) (prices_of usage_type warehouse db)) →
  ∃ r, returns (_incomplete_price usage_type start end_ warehouse) db r ∧
    (r = Some "No price" ↔
       Forall (λ up, ¬ overlaps start end_ up)
         (prices_of usage_type warehouse db)) ∧
    (r = Some "Incomplete price" ↔
       (∃ d, start ≤ d ≤ end_ ∧ priced (prices_of usage_type warehouse db) d) ∧
       (∃ d, start ≤ d ≤ end_ ∧ ¬ priced (prices_of usage_type warehouse db) d)) ∧
    (r = None ↔
       ∀ d, start ≤ d ≤ end_ → priced (prices_of usage_type warehouse db) d).
Proof.
  intros Hse Hwf Hdis.
  pose proof (incomplete_price_returns usage_type start end_ warehouse db) as Hret.
  simpl in Hret. rewrite incomplete_price_priced_days in Hret by done.
  set (all := prices_of usage_type warehouse db) in *.
  set (ups := filter (overlaps start end_) all) in *.
  set (n := Z.to_nat (end_ - start + 1)) in *.
  set (c := priced_days ups start n) in *.
  assert (end_ - start + 1 = Z.of_nat n) as Hn by lia.
  assert (∀ d, start ≤ d ≤ end_ ↔ start ≤ d < start + Z.of_nat n) as Hrange by lia.
  pose proof (priced_days_range ups start n) as Hc. fold c in Hc.
  assert (c = 0 ↔ Forall (λ up, ¬ overlaps start end_ up) all) as Hnone.
  { unfold c. rewrite priced_days_none, Forall_forall. split.
    - intros Hnp up Hin Hov.
      assert (up ∈ ups) as Hin' by by apply list_elem_of_filter.
      rewrite Forall_forall in Hwf. specialize (Hwf up Hin').
      apply (Hnp (Z.max start (up_start up))).
      + unfold overlaps in Hov. lia.
      + apply Exists_exists. exists up. split; [done|].
        unfold overlaps, covers in *. lia.
    - intros Hno d Hd Hp. apply Exists_exists in Hp as (up & Hin & _).
      apply list_elem_of_filter in Hin as [Hov Hin]. by apply (Hno up). }
  assert (c = Z.of_nat n ↔ ∀ d, start ≤ d ≤ end_ → priced all d) as Hall.
  { unfold c. rewrite priced_days_all. split; intros Hp d Hd.
    - apply (priced_overlapping all start end_); [done|]. apply Hp, Hrange, Hd.
    - apply (priced_overlapping all start end_); [|apply Hp]; by apply Hrange. }
  assert (0 < c ↔ ∃ d, start ≤ d ≤ end_ ∧ priced all d) as Hsome.
  { unfold c. rewrite priced_days_some. split; intros (d & Hd & Hp); exists d.
    - apply Hrange in Hd. split; [done|].
      by apply (priced_overlapping all start end_).
    - split; [by apply Hrange|]. by apply (priced_overlapping all start end_). }
  assert (c < Z.of_nat n ↔ ∃ d, start ≤ d ≤ end_ ∧ ¬ priced all d) as Hhole.
  { unfold c. rewrite priced_days_hole. split; intros (d & Hd & Hp); exists d.
    - apply Hrange in Hd. split; [done|]. intros Hp'. apply Hp.
      by apply (priced_overlapping all start end_).
    - split; [by apply Hrange|]. intros Hp'. apply Hp.
      by apply (priced_overlapping all start end_) in Hp'. }
  eexists. split; [exact Hret|].
  rewrite <- Hnone, <- Hall, <- Hsome, <- Hhole, Hn.
  repeat case_decide; repeat split; intros; try done; try lia.
Qed.
End IncompletePrice.

Section IncompletePriceExamples.
Import Sample.

(** C2. [_incomplete_price] is to return [None] exactly when every day of
    the range is covered by a price record, as its docstring says
    ("Calculate if for every day in report there is price defined", "None
    (if all is ok)"). It does not: it adds up the days of every record, so
    a day priced by two records counts twice. With two price records for
    days 1 to 5, the ten days of the range [[1, 10]] are counted as priced,
    and the function returns [None] although day 6 has no price. *)
Lemma incomplete_price_counts_twice :
  ¬ (∀ r, returns (_incomplete_price power 1 10 None) twice r →
       (r = None ↔
          ∀ d, 1 ≤ d ≤ 10 → priced (prices_of power None twice) d)).
Proof.
  intros Hclaim.
  destruct (Hclaim None) as [Hall _]; [vm_compute; reflexivity|].
  specialize (Hall eq_refl 6). revert Hall.
  assert (¬ priced (prices_of power None twice) 6) as Hnot.
  { apply (bool_decide_eq_false_1 _). vm_compute. reflexivity. }
  intros Hall. apply Hnot, Hall. lia.
Qed.

Lemma incomplete_price_sentinels_split :
  ∃ r, returns (_incomplete_price power 1 10 None) split r ∧
    (r = Some "No price" ↔
       Forall (λ up, ¬ overlaps 1 10 up) (prices_of power None split)) ∧
    (r = Some "Incomplete price" ↔
       (∃ d, 1 ≤ d ≤ 10 ∧ priced (prices_of power None split) d) ∧
       (∃ d, 1 ≤ d ≤ 10 ∧ ¬ priced (prices_of power None split) d)) ∧
    (r = None ↔ ∀ d, 1 ≤ d ≤ 10 → priced (prices_of power None split) d).
Proof.
  apply incomplete_price_sentinels.
  - lia.
  - apply (bool_decide_unpack _). vm_compute. exact I.
  - assert (filter (overlaps 1 10) (prices_of power None split)
            = [price_record 7 1 5 2 3 None; price_record 7 6 10 4 5 None])
      as -> by (vm_compute; reflexivity).
    simpl. repeat split; repeat constructor.
Defined.
End IncompletePriceExamples.

(** * [_get_total_cost_by_warehouses] and [total_cost] *)

Section TotalCost.
Context {num : Type} `{PyNum num} `{BaseReportPlugin num}.
Implicit Types (up : UsagePrice num) (db : DB num).
Implicit Types (usage_type : UsageType) (warehouse : option Warehouse).
Implicit Types (start : date) (ventures : list Venture) (forecast : bool).

(** A warehouse is given only to the passes of a usage type by warehouse. *)
Lemma report_warehouses_by_warehouse usage_type db warehouse :
  warehouse ∈ report_warehouses usage_type db →
  warehouse = None ∨ by_warehouse usage_type = true.
Proof.
  unfold report_warehouses. destruct (by_warehouse usage_type); [by right|].
  intros Hin. left. by apply list_elem_of_singleton in Hin.
Qed.

Lemma returns_warehouses_of usage_type db :
  returns (warehouses_of usage_type) db (report_warehouses usage_type db).
Proof.
  unfold warehouses_of, report_warehouses.
  destruct (by_warehouse usage_type); [|apply returns_ret].
  eapply returns_bind; [apply returns_query | apply returns_ret].
Qed.

(** The records of one pass of [_get_total_cost_by_warehouses]; the
    filter [type=usage_type] repeats that of the related manager. *)
Lemma total_cost_records usage_type start end_ warehouse db :
  warehouse = None ∨ by_warehouse usage_type = true →
  order_by_start
    match warehouse with
    | Some w =>
        qs_filter (of_warehouse w)
          (qs_filter (λ up, overlaps start end_ up ∧ up_type up = ut_id usage_type)
             (usageprice_set usage_type))
    | None =>
        qs_filter (λ up, overlaps start end_ up ∧ up_type up = ut_id usage_type)
          (usageprice_set usage_type)
    end db
  = report_prices usage_type start end_ warehouse db.
Proof.
  intros Hw. unfold order_by_start, report_prices. f_equal.
  unfold prices_of, qs_filter, usageprice_set.
  destruct warehouse as [w|]; rewrite !list_filter_filter;
    apply list_filter_iff; intros up;
    unfold in_warehouse, of_warehouse, overlaps; [|tauto].
  destruct Hw as [|Hbw]; [done|]. intuition.
Qed.

(** Two running sums kept as a pair are two sums. *)
Lemma foldl_pair_sums {A} (f g : A → num) (l : list A) (a b : num) :
  foldl (λ '(u, c) x, (nadd u (f x), nadd c (g x))) (a, b) l
  = (foldl (λ acc x, nadd acc (f x)) a l, foldl (λ acc x, nadd acc (g x)) b l).
Proof.
  revert a b. induction l as [|x l IH]; intros a b; simpl; [done|].
  by rewrite IH.
Qed.

(** The inner loop: usage and cost of one warehouse. *)
Lemma returns_cost_in_warehouse usage_type start end_ ventures forecast
    warehouse db (ups : list (UsagePrice num)) :
  returns
    (for_each
       (λ '(usage_in_warehouse, cost_in_warehouse) usage_price,
          let price_ :=
            if forecast then forecast_price usage_price
            else price usage_price in
          price_ ←
            (if by_cost usage_type then
               query (λ db, _get_price_from_cost db usage_price forecast warehouse)
             else ret price_);
          let up_start_ := Z.max start (up_start usage_price) in
          let up_end_ := Z.min end_ (up_end usage_price) in
          total_usage ← query (λ db,
            _get_total_usage_in_period db up_start_ up_end_ usage_type
              warehouse ventures);
          let usage_in_warehouse := nadd usage_in_warehouse total_usage in
          let cost := nmul (D total_usage) price_ in
          let cost_in_warehouse := nadd cost_in_warehouse cost in
          ret (usage_in_warehouse, cost_in_warehouse))
       ups (n0, n0))
    db
    (sum_over ups (record_usage usage_type start end_ ventures warehouse db),
     sum_over ups (record_cost usage_type start end_ ventures forecast warehouse db)).
Proof.
  unfold sum_over. rewrite <- foldl_pair_sums.
  apply returns_for_each. intros [u c] up _.
  unfold record_cost, record_usage, applied_price, clip. simpl.
  destruct (by_cost usage_type).
  - eapply returns_bind; [apply returns_query|].
    eapply returns_bind; [apply returns_query|]. apply returns_ret.
  - eapply returns_bind; [apply returns_ret|].
    eapply returns_bind; [apply returns_query|]. apply returns_ret.
Qed.

(** The outer loop: the rows of the warehouses and the running total. *)
Lemma foldl_warehouse_rows {A} (u c : A → num) (l : list A)
    (result : list num) (total : num) :
  foldl (λ '(result, total) w, ((result ++ [u w]) ++ [c w], nadd total (c w)))
    (result, total) l
  = (result ++ mjoin ((λ w, [u w; c w]) <$> l),
     foldl (λ acc w, nadd acc (c w)) total l).
Proof.
  revert result total. induction l as [|w l IH]; intros result total; simpl.
  - by rewrite app_nil_r.
  - rewrite IH. by rewrite <- !app_assoc.
Qed.

(** The list [_get_total_cost_by_warehouses] returns: usage and cost of
    every warehouse, and the total cost for a usage type by warehouse. *)
Lemma returns_total_cost_by_warehouses usage_type start end_ ventures forecast db :
  returns
    (_get_total_cost_by_warehouses start end_ ventures usage_type forecast) db
    (mjoin ((λ w, [warehouse_usage usage_type start end_ ventures db w;
                   D (warehouse_cost usage_type start end_ ventures forecast db w)])
            <$> report_warehouses usage_type db)
     ++ if by_warehouse usage_type
        then [foldl (λ acc w,
                nadd acc (D (warehouse_cost usage_type start end_ ventures forecast db w)))
                (D n0) (report_warehouses usage_type db)]
        else []).
Proof.
  unfold _get_total_cost_by_warehouses.
  eapply returns_bind; [apply returns_warehouses_of|].
  eapply returns_bind.
  { apply returns_for_each
      with (g := λ '(result, total) w,
        ((result ++ [warehouse_usage usage_type start end_ ventures db w])
           ++ [D (warehouse_cost usage_type start end_ ventures forecast db w)],
         nadd total (D (warehouse_cost usage_type start end_ ventures forecast db w)))).
    intros [result total] w Hw.
    apply report_warehouses_by_warehouse in Hw.
    eapply returns_bind; [apply returns_query|].
    rewrite total_cost_records by done.
    eapply returns_bind; [apply returns_cost_in_warehouse|].
    apply returns_ret. }
  rewrite foldl_warehouse_rows. simpl.
  destruct (by_warehouse usage_type); [apply returns_ret|].
  rewrite app_nil_r. apply returns_ret.
Qed.

Lemma last_cost_of_report usage_type start end_ ventures forecast db :
  last
    (mjoin ((λ w, [warehouse_usage usage_type start end_ ventures db w;
                   D (warehouse_cost usage_type start end_ ventures forecast db w)])
            <$> report_warehouses usage_type db)
     ++ if by_warehouse usage_type
        then [foldl (λ acc w,
                nadd acc (D (warehouse_cost usage_type start end_ ventures forecast db w)))
                (D n0) (report_warehouses usage_type db)]
        else [])
  = Some (cost_of_report_decimal usage_type start end_ ventures forecast db).
Proof.
  unfold cost_of_report_decimal, report_warehouses.
  destruct (by_warehouse usage_type); [apply last_snoc | reflexivity].
Qed.

(** In an arithmetic where [Decimal(x)] is [x] and [0 + x] is [x], the
    conversions on the way leave the sum as it is. *)
Lemma cost_of_report_decimal_exact usage_type start end_ ventures forecast db :
  (∀ x : num, D x = x) → (∀ x : num, nadd n0 x = x) →
  cost_of_report_decimal usage_type start end_ ventures forecast db
  = cost_of_report usage_type start end_ ventures forecast db.
Proof.
  intros HD Hadd. unfold cost_of_report_decimal, cost_of_report, sum_over.
  unfold report_warehouses. destruct (by_warehouse usage_type).
  - rewrite HD. generalize (@n0 num _).
    induction (Some <$> get_warehouses db) as [|w l IH]; intros a; simpl; [done|].
    by rewrite HD, IH.
  - simpl. by rewrite HD, Hadd.
Qed.

(** C1. [total_cost] returns the total cost of the usage type over the
    range: the sum, over the warehouses of the report (those of
    [get_warehouses()] for a usage type by warehouse, a single pass over
    all records otherwise) and over the price records that overlap the
    range, of [D(total_usage) * price] on the clipped sub-period. It is
    the last element of the list of [_get_total_cost_by_warehouses] in
    both cases. The conversions to [Decimal] made on the way are kept in
    [cost_of_report_decimal]; in an exact arithmetic they vanish. *)
Theorem total_cost_sum usage_type start end_ ventures forecast db :
  ∃ costs,
    returns
      (_get_total_cost_by_warehouses start end_ ventures usage_type forecast)
      db costs ∧
    last costs
      = Some (cost_of_report_decimal usage_type start end_ ventures forecast db) ∧
    returns (total_cost start end_ ventures usage_type forecast) db
      (cost_of_report_decimal usage_type start end_ ventures forecast db) ∧
    ((∀ x : num, D x = x) → (∀ x : num, nadd n0 x = x) →
     cost_of_report_decimal usage_type start end_ ventures forecast db
     = cost_of_report usage_type start end_ ventures forecast db).
Proof.
  eexists. split; [apply returns_total_cost_by_warehouses|].
  split; [apply last_cost_of_report|].
  split; [|apply cost_of_report_decimal_exact].
  unfold total_cost.
  eapply returns_bind; [apply returns_total_cost_by_warehouses|].
  rewrite last_cost_of_report. apply returns_ret.
Qed.
End TotalCost.

(** * Column identifiers *)

Section Keys.
Implicit Types (usage_type : UsageType) (warehouse : option Warehouse).

Lemma string_app_inj (s a b : string) : s +:+ a = s +:+ b → a = b.
Proof. induction s as [|c s IH]; simpl; [done|]. intros [=]. by apply IH. Qed.

(** Reduce an equation between two identifiers of the same usage type to
    what follows the common prefix. *)
Ltac key_eq H :=
  unfold count_key_of, cost_key_of, count_wh_key, cost_wh_key,
    total_cost_fmt, count_fmt, cost_fmt in H;
  repeat match type of H with
  | context [match ?w with Some _ => _ | None => _ end] => destruct w
  end;
  apply (string_app_inj "ut_") in H;
  apply string_app_inj in H;
  simpl in H; try discriminate H.

Lemma count_key_ne_cost_key usage_type warehouse warehouse' :
  count_key_of usage_type warehouse ≠ cost_key_of usage_type warehouse'.
Proof. intros Heq. key_eq Heq. Qed.

Lemma count_key_ne_total usage_type warehouse :
  count_key_of usage_type warehouse ≠ total_cost_fmt (ut_id usage_type).
Proof. intros Heq. key_eq Heq. Qed.

Lemma cost_key_ne_total usage_type warehouse :
  cost_key_of usage_type warehouse ≠ total_cost_fmt (ut_id usage_type).
Proof. intros Heq. key_eq Heq. Qed.

Lemma cost_key_inj usage_type warehouse warehouse' :
  cost_key_of usage_type warehouse = cost_key_of usage_type warehouse' →
  wh_id <$> warehouse = wh_id <$> warehouse'.
Proof.
  intros Heq. key_eq Heq; [|done]. simpl. f_equal.
  apply (string_app_inj "_cost_wh_") in Heq. by apply (inj pretty).
Qed.

Lemma count_key_inj usage_type warehouse warehouse' :
  count_key_of usage_type warehouse = count_key_of usage_type warehouse' →
  wh_id <$> warehouse = wh_id <$> warehouse'.
Proof.
  intros Heq. key_eq Heq; [|done]. simpl. f_equal.
  apply (string_app_inj "_count_wh_") in Heq. by apply (inj pretty).
Qed.
End Keys.

(** * The nested dictionary *)

Section Dictionary.
Context {num : Type} `{PyNum num}.
Implicit Types (result : gmap Z (gmap string (cell num))).
Implicit Types (venture : Z) (key : string) (c : cell num).

Lemma cell_at_empty venture key : cell_at (num:=num) ∅ venture key = None.
Proof. unfold cell_at. by rewrite lookup_empty. Qed.

Lemma cell_at_Some result venture key c :
  cell_at result venture key = Some c ↔
  ∃ m, result !! venture = Some m ∧ m !! key = Some c.
Proof.
  unfold cell_at. destruct (result !! venture) as [m|]; simpl.
  - split; [by exists m | by intros (? & [= <-] & ?)].
  - split; [done | by intros (? & ? & ?)].
Qed.

Lemma dd_get_cell_at result venture key :
  dd_get result venture key = default (Num n0) (cell_at result venture key).
Proof.
  unfold dd_get, cell_at. destruct (result !! venture) as [m|]; simpl; [done|].
  by rewrite lookup_empty.
Qed.

Lemma cell_at_dd_set result venture key c venture' key' :
  cell_at (dd_set result venture key c) venture' key'
  = if decide (venture' = venture ∧ key' = key) then Some c
    else cell_at result venture' key'.
Proof.
  unfold cell_at, dd_set. destruct (decide (venture' = venture)) as [->|Hv].
  - rewrite lookup_insert_eq. simpl. destruct (decide (key' = key)) as [->|Hk].
    + rewrite lookup_insert_eq. by rewrite decide_True.
    + rewrite lookup_insert_ne by done. rewrite decide_False by tauto.
      destruct (result !! venture); simpl; [done | by rewrite lookup_empty].
  - rewrite lookup_insert_ne by done. by rewrite decide_False by tauto.
Qed.

(** [result[venture][key] += x] on a number, or on no value yet. *)
Lemma returns_dd_iadd result venture key x db :
  (∀ msg, cell_at result venture key ≠ Some (Msg msg)) →
  returns (dd_iadd result venture key x) db
    (dd_set result venture key
       (Num (nadd (cell_num (cell_at result venture key)) x))).
Proof.
  intros Hnum. unfold dd_iadd. rewrite dd_get_cell_at.
  destruct (cell_at result venture key) as [[y|msg]|]; simpl.
  - eapply returns_bind; apply returns_ret.
  - by destruct (Hnum msg).
  - eapply returns_bind; apply returns_ret.
Qed.

Lemma accumulate_cons (old : option (cell num)) x xs :
  accumulate old (x :: xs) = accumulate (Some (Num (nadd (cell_num old) x))) xs.
Proof. by destruct xs. Qed.

Lemma accumulate_app (old : option (cell num)) xs ys :
  accumulate old (xs ++ ys) = accumulate (accumulate old xs) ys.
Proof.
  revert old. induction xs as [|x xs IH]; intros old; [done|].
  rewrite <- app_comm_cons, !accumulate_cons. apply IH.
Qed.

Lemma overwrite_app (old : option (cell num)) msg xs ys :
  overwrite old msg (xs ++ ys) = overwrite (overwrite old msg xs) msg ys.
Proof. by destruct xs, ys. Qed.

End Dictionary.

(** * The passes of [_get_usages_per_warehouse] *)

Section Loops.
Context {num : Type}.

(** A loop invariant that follows the elements gone through. *)
Lemma returns_for_each_prefix {A S} (I : list A → S → Prop)
    (body : S → A → M num S) l s db :
  I [] s →
  (∀ pre x suf s, l = pre ++ x :: suf → I pre s →
     ∃ s', returns (body s x) db s' ∧ I (pre ++ [x]) s') →
  ∃ s', returns (for_each body l s) db s' ∧ I l s'.
Proof.
  intros Hs Hbody.
  assert (∀ k pre s, l = pre ++ k → I pre s →
            ∃ s', returns (for_each body k s) db s' ∧ I (pre ++ k) s') as Hgen.
  { induction k as [|x k IH]; intros pre s0 Hl Hs0.
    - exists s0. split; [reflexivity | by rewrite app_nil_r].
    - destruct (Hbody pre x k s0) as (s1 & Hr1 & Hs1); [done..|].
      destruct (IH (pre ++ [x]) s1) as (s2 & Hr2 & Hs2); [|done|].
      { by rewrite <- app_assoc. }
      exists s2. split.
      + simpl. by apply (returns_bind (body s0 x) _ db s1).
      + by rewrite <- app_assoc in Hs2. }
  apply (Hgen l [] s); done.
Qed.

Lemma returns_bind_ex {A B} (m : M num A) (f : A → M num B) (P : B → Prop) db a :
  returns m db a →
  (∃ b, returns (f a) db b ∧ P b) →
  ∃ b, returns (m ≫= f) db b ∧ P b.
Proof.
  intros Hm (b & Hf & Hb). exists b. split; [|done].
  by apply (returns_bind m f db a).
Qed.
End Loops.

Section Usages.
Context {num : Type} `{PyNum num} `{BaseReportPlugin num}.
Implicit Types (up : UsagePrice num) (db : DB num).
Implicit Types (usage_type : UsageType) (warehouse : option Warehouse).
Implicit Types (start : date) (ventures : list Venture).
Implicit Types (forecast no_price_msg by_wh : bool).
Implicit Types (result : gmap Z (gmap string (cell num))).
Implicit Types (rows : list (num * UsageRow num)) (old : option (cell num)).
Implicit Types (price_undefined : option string).
Implicit Types (venture : Z) (key count_key cost_key total_cost_key : string).

Lemma venture_usages_app venture rows rows' :
  venture_usages venture (rows ++ rows')
  = venture_usages venture rows ++ venture_usages venture rows'.
Proof. unfold venture_usages. by rewrite filter_app, fmap_app. Qed.

Lemma venture_costs_app venture rows rows' :
  venture_costs venture (rows ++ rows')
  = venture_costs venture rows ++ venture_costs venture rows'.
Proof. unfold venture_costs. by rewrite filter_app, fmap_app. Qed.

Lemma venture_usages_one venture (price_ : num) (v : UsageRow num) :
  venture_usages venture [(price_, v)]
  = if decide (pricing_venture v = venture) then [usage v] else [].
Proof.
  unfold venture_usages. rewrite filter_cons, filter_nil. simpl.
  by case_decide.
Qed.

Lemma venture_costs_one venture (price_ : num) (v : UsageRow num) :
  venture_costs venture [(price_, v)]
  = if decide (pricing_venture v = venture)
    then [nmul (D (usage v)) price_] else [].
Proof.
  unfold venture_costs. rewrite filter_cons, filter_nil. simpl.
  by case_decide.
Qed.

Lemma cell_after_nil by_wh price_undefined count_key cost_key total_cost_key
    venture key old :
  cell_after by_wh price_undefined count_key cost_key total_cost_key []
    venture key old = old.
Proof.
  unfold cell_after. repeat case_decide; try done.
  - by destruct price_undefined.
  - by destruct (by_wh && _).
Qed.

(** The rows of a pass may be gone through in two parts. *)
Lemma cell_after_app by_wh price_undefined count_key cost_key total_cost_key
    rows rows' venture key old :
  cell_after by_wh price_undefined count_key cost_key total_cost_key
    (rows ++ rows') venture key old
  = cell_after by_wh price_undefined count_key cost_key total_cost_key rows'
      venture key
      (cell_after by_wh price_undefined count_key cost_key total_cost_key rows
         venture key old).
Proof.
  unfold cell_after. rewrite venture_usages_app, venture_costs_app.
  repeat case_decide; try done.
  - apply accumulate_app.
  - destruct price_undefined; [apply overwrite_app | apply accumulate_app].
  - destruct (by_wh && _); [apply accumulate_app | done].
Qed.

(** A pass leaves a message only as the cost, and only when the price is
    undefined. *)
Lemma cell_after_msg by_wh price_undefined count_key cost_key total_cost_key
    rows venture key old msg :
  cell_after by_wh price_undefined count_key cost_key total_cost_key rows
    venture key old = Some (Msg msg) →
  old = Some (Msg msg) ∨ (key = cost_key ∧ price_undefined = Some msg).
Proof.
  unfold cell_after, accumulate, overwrite.
  repeat case_decide; repeat case_match; intros; simplify_eq; auto.
Qed.

Lemma cell_after_ready by_wh price_undefined count_key cost_key total_cost_key
    rows result result' :
  count_key ≠ cost_key →
  ready by_wh price_undefined count_key cost_key total_cost_key result →
  (∀ venture key,
     cell_at result' venture key
     = cell_after by_wh price_undefined count_key cost_key total_cost_key rows
         venture key (cell_at result venture key)) →
  ready by_wh price_undefined count_key cost_key total_cost_key result'.
Proof.
  intros Hne Hready Hcells venture msg.
  destruct (Hready venture msg) as (Hcount & Hcost & Htotal).
  rewrite !Hcells. repeat split.
  - intros [?|[? _]]%cell_after_msg; [by apply Hcount | by apply Hne].
  - intros Hpu [?|[_ ?]]%cell_after_msg; [by apply Hcost | congruence].
  - intros Hbw Hpu [?|[_ ?]]%cell_after_msg; [by apply Htotal | congruence].
Qed.

(** The inner function: the rows of one period. *)
Lemma returns_add_usages_per_venture usage_type warehouse ventures
    price_undefined count_key cost_key tk (tko : option string)
    (up_start_ up_end_ : date) (price_ : num) result db :
  count_key ≠ cost_key → count_key ≠ tk → cost_key ≠ tk →
  (by_warehouse usage_type = true → tko = Some tk) →
  ready (by_warehouse usage_type) price_undefined count_key cost_key tk result →
  ∃ result',
    returns
      (add_usages_per_venture usage_type warehouse ventures price_undefined
         count_key cost_key tko up_start_ up_end_ price_ result)
      db result' ∧
    ∀ venture key,
      cell_at result' venture key
      = cell_after (by_warehouse usage_type) price_undefined count_key cost_key tk
          ((λ v, (price_, v)) <$>
             _get_usages_in_period_per_venture db up_start_ up_end_
               usage_type warehouse ventures)
          venture key (cell_at result venture key).
Proof.
  intros Hcc Hct Hst Htk Hready. unfold add_usages_per_venture.
  set (rows := _get_usages_in_period_per_venture db up_start_ up_end_
                 usage_type warehouse ventures).
  set (after := cell_after (by_warehouse usage_type) price_undefined
                  count_key cost_key tk).
  eapply returns_bind_ex; [apply returns_query|]. fold rows.
  apply (returns_for_each_prefix
    (λ pre result',
       ∀ venture key,
         cell_at result' venture key
         = after ((λ v, (price_, v)) <$> pre) venture key
             (cell_at result venture key))).
  { intros venture key. unfold after. by rewrite cell_after_nil. }
  intros pre v suf r1 _ Hr1.
  assert (ready (by_warehouse usage_type) price_undefined count_key cost_key tk r1)
    as Hready1 by (by eapply cell_after_ready).
  assert (∀ r',
    (∀ venture key,
       cell_at r' venture key
       = after [(price_, v)] venture key (cell_at r1 venture key)) →
    ∀ venture key,
      cell_at r' venture key
      = after ((λ v0, (price_, v0)) <$> pre ++ [v]) venture key
          (cell_at result venture key)) as Hstep.
  { intros r' Hr' venture key. rewrite fmap_app. unfold after.
    rewrite cell_after_app. fold after. by rewrite <- Hr1, Hr'. }
  eapply returns_bind_ex.
  { apply returns_dd_iadd. intros msg. apply (Hready1 _ msg). }
  destruct price_undefined as [msg|].
  - eapply returns_bind_ex; [apply returns_ret|].
    rewrite bool_decide_eq_false_2, andb_false_r by done.
    eexists. split; [apply returns_ret|]. apply Hstep.
    intros venture key. unfold after, cell_after.
    rewrite venture_usages_one, venture_costs_one, !cell_at_dd_set.
    rewrite andb_false_r.
    repeat (case_decide; simplify_eq/=); try done; intuition congruence.
  - eapply returns_bind_ex.
    { apply returns_dd_iadd. intros msg. rewrite cell_at_dd_set.
      rewrite decide_False by (intros [_ ?]; by apply Hcc).
      by apply (Hready1 _ msg). }
    rewrite bool_decide_eq_true_2, andb_true_r by done.
    destruct (by_warehouse usage_type) eqn:Hbw.
    + rewrite Htk by done. eexists. split.
      { apply returns_dd_iadd. intros msg. rewrite !cell_at_dd_set.
        rewrite !decide_False by (intros [_ ?]; congruence).
        by apply (Hready1 _ msg). }
      apply Hstep. intros venture key. unfold after, cell_after.
      rewrite venture_usages_one, venture_costs_one, !cell_at_dd_set. simpl.
      repeat (case_decide; simplify_eq/=); try done; intuition congruence.
    + eexists. split; [apply returns_ret|].
      apply Hstep. intros venture key. unfold after, cell_after.
      rewrite venture_usages_one, venture_costs_one, !cell_at_dd_set. simpl.
      repeat (case_decide; simplify_eq/=); try done; intuition congruence.
Qed.

(** The records of one pass of [_get_usages_per_warehouse]. *)
Lemma usages_records usage_type start end_ warehouse db :
  warehouse = None ∨ by_warehouse usage_type = true →
  order_by_start
    match warehouse with
    | Some w =>
        qs_filter (of_warehouse w)
          (qs_filter (overlaps start end_) (usageprice_set usage_type))
    | None => qs_filter (overlaps start end_) (usageprice_set usage_type)
    end db
  = report_prices usage_type start end_ warehouse db.
Proof.
  intros Hw. unfold order_by_start, report_prices. f_equal.
  unfold prices_of, qs_filter, usageprice_set.
  destruct warehouse as [w|]; rewrite !list_filter_filter;
    apply list_filter_iff; intros up;
    unfold in_warehouse, of_warehouse, overlaps; [|tauto].
  destruct Hw as [|Hbw]; [done|]. intuition.
Qed.

Lemma returns_price_undefined usage_type start end_ no_price_msg warehouse db :
  returns
    (if no_price_msg then _incomplete_price usage_type start end_ warehouse
     else ret None)
    db (pass_message usage_type start end_ no_price_msg warehouse db).
Proof.
  unfold pass_message. destruct no_price_msg; [|apply returns_ret].
  apply incomplete_price_returns.
Qed.

Lemma returns_pass_keys usage_type warehouse db :
  warehouse ∈ report_warehouses usage_type db →
  returns (pass_keys usage_type warehouse) db
    (count_key_of usage_type warehouse, cost_key_of usage_type warehouse,
     if by_warehouse usage_type then Some (total_cost_fmt (ut_id usage_type))
     else None).
Proof.
  unfold report_warehouses, pass_keys. destruct (by_warehouse usage_type).
  - intros (w & -> & _)%list_elem_of_fmap. apply returns_ret.
  - intros ->%list_elem_of_singleton. apply returns_ret.
Qed.

(** The rows of the periods of a list of price records. *)
Lemma pass_rows_records usage_type start end_ forecast ventures warehouse db :
  report_prices usage_type start end_ warehouse db ≠ [] →
  pass_rows usage_type start end_ forecast ventures warehouse db
  = mjoin ((λ up,
             (λ v, (applied_price usage_type forecast warehouse db up, v)) <$>
               _get_usages_in_period_per_venture db
                 (Z.max start (up_start up)) (Z.min end_ (up_end up))
                 usage_type warehouse ventures)
           <$> report_prices usage_type start end_ warehouse db).
Proof.
  intros Hne. unfold pass_rows, pass_periods.
  destruct (report_prices usage_type start end_ warehouse db) as [|up ups];
    [done|].
  by rewrite <- list_fmap_compose.
Qed.

Lemma pass_rows_no_records usage_type start end_ forecast ventures warehouse db :
  report_prices usage_type start end_ warehouse db = [] →
  pass_rows usage_type start end_ forecast ventures warehouse db
  = (λ v, (n0, v)) <$>
      _get_usages_in_period_per_venture db start end_ usage_type warehouse
        ventures.
Proof.
  intros Hnil. unfold pass_rows, pass_periods. rewrite Hnil. simpl.
  by rewrite app_nil_r.
Qed.

(** The pass over one warehouse. *)
Lemma returns_usages_in_warehouse usage_type start end_ forecast ventures
    no_price_msg result warehouse db :
  warehouse ∈ report_warehouses usage_type db →
  ready (by_warehouse usage_type)
    (pass_message usage_type start end_ no_price_msg warehouse db)
    (count_key_of usage_type warehouse) (cost_key_of usage_type warehouse)
    (total_cost_fmt (ut_id usage_type)) result →
  ∃ result',
    returns
      (usages_in_warehouse usage_type start end_ forecast ventures
         no_price_msg result warehouse)
      db result' ∧
    ∀ venture key,
      cell_at result' venture key
      = pass_cell usage_type start end_ forecast ventures no_price_msg db
          warehouse venture key (cell_at result venture key).
Proof.
  intros Hw Hready. unfold usages_in_warehouse, pass_cell.
  set (pu := pass_message usage_type start end_ no_price_msg warehouse db) in *.
  set (ck := count_key_of usage_type warehouse) in *.
  set (sk := cost_key_of usage_type warehouse) in *.
  set (tk := total_cost_fmt (ut_id usage_type)) in *.
  assert (ck ≠ sk) as Hcs by apply count_key_ne_cost_key.
  assert (ck ≠ tk) as Hct by apply count_key_ne_total.
  assert (sk ≠ tk) as Hst by apply cost_key_ne_total.
  eapply returns_bind_ex; [apply returns_price_undefined|]. fold pu.
  eapply returns_bind_ex; [exact (returns_pass_keys _ _ db Hw)|]. fold ck sk tk.
  eapply returns_bind_ex; [apply returns_query|].
  rewrite usages_records by exact (report_warehouses_by_warehouse _ db _ Hw).
  destruct (report_prices usage_type start end_ warehouse db) as [|up0 ups0]
    eqn:Hups.
  - rewrite pass_rows_no_records by done.
    apply returns_add_usages_per_venture; try done.
    by intros ->.
  - rewrite pass_rows_records by (by rewrite Hups). rewrite Hups.
    set (ups := up0 :: ups0).
    set (rows_of := λ up : UsagePrice num,
           (λ v, (applied_price usage_type forecast warehouse db up, v)) <$>
             _get_usages_in_period_per_venture db
               (Z.max start (up_start up)) (Z.min end_ (up_end up))
               usage_type warehouse ventures).
    apply (returns_for_each_prefix
      (λ pre result',
         ∀ venture key,
           cell_at result' venture key
           = cell_after (by_warehouse usage_type) pu ck sk tk
               (mjoin (rows_of <$> pre)) venture key
               (cell_at result venture key))).
    { intros venture key. by rewrite cell_after_nil. }
    intros pre up suf r1 _ Hr1.
    assert (ready (by_warehouse usage_type) pu ck sk tk r1) as Hready1
      by (by eapply cell_after_ready).
    assert (∃ r',
      returns
        (add_usages_per_venture usage_type warehouse ventures pu ck sk
           (if by_warehouse usage_type then Some tk else None)
           (Z.max start (up_start up)) (Z.min end_ (up_end up))
           (applied_price usage_type forecast warehouse db up) r1) db r' ∧
      ∀ venture key,
        cell_at r' venture key
        = cell_after (by_warehouse usage_type) pu ck sk tk
            (mjoin (rows_of <$> pre ++ [up])) venture key
            (cell_at result venture key)) as (r' & Hret & Hr').
    { destruct (returns_add_usages_per_venture usage_type warehouse ventures
                  pu ck sk tk (if by_warehouse usage_type then Some tk else None)
                  (Z.max start (up_start up)) (Z.min end_ (up_end up))
                  (applied_price usage_type forecast warehouse db up) r1 db)
        as (r' & Hret & Hr'); try done.
      { by intros ->. }
      exists r'. split; [done|]. intros venture key.
      rewrite fmap_app, join_app, cell_after_app, <- Hr1, Hr'. simpl.
      by rewrite app_nil_r. }
    exists r'. split; [|done]. unfold applied_price in Hret.
    destruct (by_cost usage_type).
    + eapply returns_bind; [apply returns_query | exact Hret].
    + eapply returns_bind; [apply returns_ret | exact Hret].
Qed.

(** The price records of a warehouse are those of its identifier. *)
Lemma prices_of_wh_id usage_type warehouse warehouse' db :
  wh_id <$> warehouse = wh_id <$> warehouse' →
  prices_of usage_type warehouse db = prices_of usage_type warehouse' db.
Proof.
  intros Hid. unfold prices_of. apply list_filter_iff. intros up.
  destruct warehouse as [w|], warehouse' as [w'|]; simplify_eq/=; [|done].
  by rewrite Hid.
Qed.

Lemma pass_message_wh_id usage_type start end_ no_price_msg warehouse
    warehouse' db :
  wh_id <$> warehouse = wh_id <$> warehouse' →
  pass_message usage_type start end_ no_price_msg warehouse db
  = pass_message usage_type start end_ no_price_msg warehouse' db.
Proof.
  intros Hid. unfold pass_message, price_message.
  by rewrite (prices_of_wh_id usage_type warehouse warehouse').
Qed.

(** After some passes, a message is the cost of a warehouse whose price
    is undefined. *)
Lemma passes_msg usage_type start end_ forecast ventures no_price_msg db
    (ws : list (option Warehouse)) venture key msg :
  foldl (λ old w,
      pass_cell usage_type start end_ forecast ventures no_price_msg db w
        venture key old) None ws
  = Some (Msg msg) →
  ∃ w, w ∈ ws ∧ key = cost_key_of usage_type w ∧
       pass_message usage_type start end_ no_price_msg w db = Some msg.
Proof.
  induction ws as [|w ws IH] using rev_ind; [done|].
  rewrite foldl_snoc. unfold pass_cell at 1.
  intros [Hold|[-> Hpu]]%cell_after_msg.
  - destruct (IH Hold) as (w' & Hin & Hkey & Hpu).
    exists w'. split; [|done]. apply elem_of_app. by left.
  - exists w. split; [|done]. apply elem_of_app. right. by left.
Qed.

(** The master lemma on [usages]: it returns, and the cells of the
    report are those of the passes over the warehouses. *)
Lemma usages_cells start end_ ventures usage_type forecast no_price_msg db :
  ∃ result,
    returns (usages start end_ ventures usage_type forecast no_price_msg)
      db result ∧
    ∀ venture key,
      cell_at result venture key
      = report_cell usage_type start end_ forecast ventures no_price_msg db
          venture key.
Proof.
  unfold usages, _get_usages_per_warehouse, report_cell.
  eapply returns_bind_ex; [apply returns_warehouses_of|].
  apply (returns_for_each_prefix
    (λ pre result,
       ∀ venture key,
         cell_at result venture key
         = foldl (λ old w,
             pass_cell usage_type start end_ forecast ventures no_price_msg
               db w venture key old) None pre)).
  { intros venture key. apply cell_at_empty. }
  intros pre w suf r1 Hws Hr1.
  assert (w ∈ report_warehouses usage_type db) as Hw.
  { rewrite Hws. apply elem_of_app. right. left. }
  destruct (returns_usages_in_warehouse usage_type start end_ forecast
              ventures no_price_msg r1 w db Hw) as (r' & Hret & Hr').
  { intros venture msg. rewrite !Hr1. repeat split.
    - intros (w' & _ & Hkey & _)%passes_msg.
      by apply count_key_ne_cost_key in Hkey.
    - intros Hpu (w' & _ & Hkey & Hpu')%passes_msg.
      apply cost_key_inj in Hkey.
      rewrite (pass_message_wh_id _ _ _ _ w w') in Hpu by done. congruence.
    - intros _ _ (w' & _ & Hkey & _)%passes_msg.
      symmetry in Hkey. by apply cost_key_ne_total in Hkey. }
  exists r'. split; [done|]. intros venture key.
  by rewrite foldl_snoc, <- Hr1, Hr'.
Qed.

(** ** The cells of one warehouse *)

(** A pass leaves the columns of the other warehouses as they are. *)
Lemma pass_cell_other usage_type start end_ forecast ventures no_price_msg db
    warehouse venture key old :
  key ≠ count_key_of usage_type warehouse →
  key ≠ cost_key_of usage_type warehouse →
  key ≠ total_cost_fmt (ut_id usage_type) →
  pass_cell usage_type start end_ forecast ventures no_price_msg db warehouse
    venture key old = old.
Proof.
  intros ???. unfold pass_cell, cell_after. by rewrite !decide_False by done.
Qed.

Lemma passes_other usage_type start end_ forecast ventures no_price_msg db
    (ws : list (option Warehouse)) venture key old :
  (∀ w, w ∈ ws →
     key ≠ count_key_of usage_type w ∧ key ≠ cost_key_of usage_type w) →
  key ≠ total_cost_fmt (ut_id usage_type) →
  foldl (λ old w,
      pass_cell usage_type start end_ forecast ventures no_price_msg db w
        venture key old) old ws
  = old.
Proof.
  intros Hws Htk. revert old. induction ws as [|w ws IH]; intros old; [done|].
  simpl. destruct (Hws w) as [??]; [left|].
  rewrite pass_cell_other by done. apply IH. intros w' Hw'. apply Hws. by right.
Qed.

(** When the warehouses have distinct identifiers, the count and the cost
    of a warehouse come from its own pass alone. *)
Lemma passes_own usage_type start end_ forecast ventures no_price_msg db
    (ws : list (option Warehouse)) warehouse venture key :
  NoDup (pass_id <$> ws) →
  warehouse ∈ ws →
  key = count_key_of usage_type warehouse ∨
  key = cost_key_of usage_type warehouse →
  foldl (λ old w,
      pass_cell usage_type start end_ forecast ventures no_price_msg db w
        venture key old) None ws
  = pass_cell usage_type start end_ forecast ventures no_price_msg db
      warehouse venture key None.
Proof.
  intros Hnd (l1 & l2 & ->)%list_elem_of_split Hkey.
  rewrite fmap_app, fmap_cons in Hnd.
  apply NoDup_app in Hnd as (_ & Hl1 & [Hl2 _]%NoDup_cons).
  assert (∀ l : list (option Warehouse),
    pass_id warehouse ∉ pass_id <$> l →
    ∀ w, w ∈ l →
      key ≠ count_key_of usage_type w ∧ key ≠ cost_key_of usage_type w)
    as Hother.
  { intros l Hl w Hw.
    assert (wh_id <$> w ≠ wh_id <$> warehouse) as Hid.
    { intros Heq. apply Hl. fold (pass_id w) (pass_id warehouse) in Heq.
      rewrite <- Heq. by apply list_elem_of_fmap_2. }
    split; intros ->; destruct Hkey as [Hkey|Hkey].
    - by apply count_key_inj in Hkey.
    - by apply count_key_ne_cost_key in Hkey.
    - symmetry in Hkey. by apply count_key_ne_cost_key in Hkey.
    - by apply cost_key_inj in Hkey. }
  assert (key ≠ total_cost_fmt (ut_id usage_type)) as Htk.
  { destruct Hkey as [-> | ->];
      [apply count_key_ne_total | apply cost_key_ne_total]. }
  rewrite foldl_app. simpl. rewrite (passes_other _ _ _ _ _ _ _ l1).
  - apply passes_other; [|done]. by apply Hother.
  - apply Hother. intros Hin. apply (Hl1 _ Hin). left.
  - done.
Qed.

(** ** Reports without messages, and without prices *)

Lemma report_cell_no_price_msg usage_type start end_ forecast ventures db
    venture key c :
  report_cell usage_type start end_ forecast ventures false db venture key
  = Some c →
  is_num c.
Proof.
  destruct c as [x|msg]; [done|]. unfold report_cell.
  intros (w & _ & _ & Hpu)%passes_msg. by unfold pass_message in Hpu.
Qed.

Lemma report_prices_no_overlap usage_type start end_ warehouse db :
  Forall (λ up, ¬ overlaps start end_ up) (usageprice_set usage_type db) →
  report_prices usage_type start end_ warehouse db = [].
Proof.
  intros Hno. unfold report_prices.
  assert (filter (λ up, start ≤ up_end up ∧ up_start up ≤ end_)
            (prices_of usage_type warehouse db) = []) as ->; [|done].
  apply elem_of_nil_inv. intros up [Hov Hin]%list_elem_of_filter.
  rewrite Forall_forall in Hno. apply (Hno up); [|done].
  unfold prices_of in Hin. apply list_elem_of_filter in Hin as [[Hty _] Hin].
  by apply list_elem_of_filter.
Qed.

(** In an arithmetic where [x * 0] and [0 + 0] are [0], costs at the
    price [0] add up to [0]. *)
Lemma accumulate_zeros (old : option (cell num)) (xs : list num) :
  nadd n0 n0 = n0 →
  old = None ∨ old = Some (Num n0) →
  Forall (.= n0) xs →
  accumulate old xs = match xs with [] => old | _ => Some (Num n0) end.
Proof.
  intros Hadd Hold Hxs.
  assert (foldl nadd (cell_num old) xs = n0) as Hsum.
  { assert (cell_num old = n0) as -> by (by destruct Hold as [-> | ->]).
    induction Hxs as [|y ys -> _ IH]; [done|]. simpl. by rewrite Hadd. }
  destruct xs; [done|]. unfold accumulate. by rewrite Hsum.
Qed.

Lemma venture_costs_price_zero venture (vs : list (UsageRow num)) :
  (∀ x : num, nmul x n0 = n0) →
  Forall (.= n0) (venture_costs venture ((λ v, (n0, v)) <$> vs)).
Proof.
  intros Hmul. unfold venture_costs. apply Forall_forall.
  intros x (pv & -> & [_ Hin]%list_elem_of_filter)%list_elem_of_fmap.
  apply list_elem_of_fmap in Hin as (v & -> & _). apply Hmul.
Qed.

Lemma venture_usages_fmap venture (price_ : num) (vs : list (UsageRow num)) :
  venture_usages venture ((λ v, (price_, v)) <$> vs)
  = usage <$> filter (λ v, pricing_venture v = venture) vs.
Proof.
  unfold venture_usages. induction vs as [|v vs IH]; [done|].
  rewrite fmap_cons, !filter_cons. simpl.
  case_decide; rewrite ?fmap_cons; simpl; [f_equal|]; exact IH.
Qed.

(** Without price records and without messages, the cost and the total
    cost are absent or [0]. *)
Lemma passes_costs_zero usage_type start end_ forecast ventures db
    (ws : list (option Warehouse)) venture key old :
  Forall (λ up, ¬ overlaps start end_ up) (usageprice_set usage_type db) →
  (∀ x : num, nmul x n0 = n0) → nadd n0 n0 = n0 →
  key = total_cost_fmt (ut_id usage_type) ∨
  (∃ w, key = cost_key_of usage_type w) →
  old = None ∨ old = Some (Num n0) →
  ∀ c,
    foldl (λ old w,
        pass_cell usage_type start end_ forecast ventures false db w
          venture key old) old ws
    = Some c →
    c = Num n0.
Proof.
  intros Hno Hmul Hadd Hkey. revert old.
  induction ws as [|w ws IH]; intros old Hold c; simpl.
  { intros ->. by destruct Hold as [|[= ->]]. }
  apply IH. unfold pass_cell, cell_after.
  rewrite pass_rows_no_records by by apply report_prices_no_overlap.
  rewrite decide_False; last first.
  { destruct Hkey as [-> | [w' ->]]; intros Heq; symmetry in Heq.
    - by apply count_key_ne_total in Heq.
    - by apply count_key_ne_cost_key in Heq. }
  unfold pass_message.
  repeat case_match; try done;
    rewrite accumulate_zeros by eauto using venture_costs_price_zero;
    by case_match; [|right].
Qed.

(** C3. With [no_price_msg=False], [usages] returns a mapping in which
    every value, and so every cost and total cost, is a number and never
    a message. In particular, when no price record of the usage type
    overlaps the range, every cost and total cost in it is the number 0
    (in an arithmetic where [x * 0] and [0 + 0] are [0]), and the usage is
    still counted: the count of a venture for a warehouse adds up its usage
    over the whole range (warehouses being told apart by their
    identifiers). *)
Theorem usages_costs_are_numbers start end_ ventures usage_type forecast db :
  ∃ result,
    returns (usages start end_ ventures usage_type forecast false) db result ∧
    (∀ venture m key c,
       result !! venture = Some m → m !! key = Some c → is_num c) ∧
    (Forall (λ up, ¬ overlaps start end_ up) (usageprice_set usage_type db) →
     (∀ x : num, nmul x n0 = n0) → nadd n0 n0 = n0 →
     (∀ warehouse venture c,
        cell_at result venture (cost_key_of usage_type warehouse) = Some c →
        c = Num n0) ∧
     (∀ venture c,
        cell_at result venture (total_cost_fmt (ut_id usage_type)) = Some c →
        c = Num n0) ∧
     (NoDup (pass_id <$> report_warehouses usage_type db) →
      ∀ warehouse venture,
        warehouse ∈ report_warehouses usage_type db →
        cell_at result venture (count_key_of usage_type warehouse)
        = accumulate None
            (usage <$>
               filter (λ v, pricing_venture v = venture)
                 (_get_usages_in_period_per_venture db start end_
                    usage_type warehouse ventures)))).
Proof.
  destruct (usages_cells start end_ ventures usage_type forecast false db)
    as (result & Hret & Hcells).
  exists result. split; [done|]. split.
  { intros venture m key c Hm Hc.
    apply (report_cell_no_price_msg usage_type start end_ forecast ventures db
             venture key).
    rewrite <- Hcells. apply cell_at_Some. by exists m. }
  intros Hno Hmul Hadd. repeat split.
  - intros warehouse venture c. rewrite Hcells.
    apply passes_costs_zero; eauto.
  - intros venture c. rewrite Hcells. apply passes_costs_zero; eauto.
  - intros Hnd warehouse venture Hw. rewrite Hcells. unfold report_cell.
    rewrite (passes_own _ _ _ _ _ _ _ _ warehouse) by eauto.
    unfold pass_cell, cell_after. rewrite decide_True by done.
    rewrite pass_rows_no_records by by apply report_prices_no_overlap.
    by rewrite venture_usages_fmap.
Qed.

(** ** A pass with an undefined price *)

Lemma price_message_sentinel usage_type start end_ warehouse db msg :
  price_message usage_type start end_ warehouse db = Some msg →
  msg = "No price" ∨ msg = "Incomplete price".
Proof.
  unfold price_message. repeat case_decide; intros [= <-]; auto.
Qed.

(** The total cost of a venture adds up the costs of the passes whose
    price is defined. *)
Lemma passes_total usage_type start end_ forecast ventures no_price_msg db
    (ws : list (option Warehouse)) venture old :
  by_warehouse usage_type = true →
  foldl (λ old w,
      pass_cell usage_type start end_ forecast ventures no_price_msg db w
        venture (total_cost_fmt (ut_id usage_type)) old) old ws
  = foldl (λ old w,
        accumulate old
          (venture_costs venture
             (pass_rows usage_type start end_ forecast ventures w db)))
      old
      (filter (λ w, pass_message usage_type start end_ no_price_msg w db = None)
         ws).
Proof.
  intros Hbw. revert old. induction ws as [|w ws IH]; intros old; [done|].
  rewrite filter_cons. simpl. rewrite IH. unfold pass_cell, cell_after.
  rewrite decide_False by (intros Heq; symmetry in Heq;
                           by apply count_key_ne_total in Heq).
  rewrite decide_False by (intros Heq; symmetry in Heq;
                           by apply cost_key_ne_total in Heq).
  rewrite decide_True, Hbw by done. simpl.
  case_decide as Hpu.
  - by rewrite bool_decide_eq_true_2.
  - by rewrite bool_decide_eq_false_2.
Qed.


(** A value of the report sits under a column identifier of one of its
    passes. *)
Lemma passes_key usage_type start end_ forecast ventures no_price_msg db
    (ws : list (option Warehouse)) venture key c :
  foldl (λ old w,
      pass_cell usage_type start end_ forecast ventures no_price_msg db w
        venture key old) None ws
  = Some c →
  (by_warehouse usage_type = true ∧ key = total_cost_fmt (ut_id usage_type)) ∨
  ∃ w, w ∈ ws ∧
    (key = count_key_of usage_type w ∨ key = cost_key_of usage_type w).
Proof.
  induction ws as [|w ws IH] using rev_ind; [done|].
  rewrite foldl_snoc. unfold pass_cell at 1. unfold cell_after.
  assert (w ∈ ws ++ [w]) as Hw by (apply elem_of_app; right; left).
  assert (∀ old, old = Some c →
    foldl (λ old w,
        pass_cell usage_type start end_ forecast ventures no_price_msg db w
          venture key old) None ws = old →
    (by_warehouse usage_type = true ∧ key = total_cost_fmt (ut_id usage_type)) ∨
    ∃ w', w' ∈ ws ++ [w] ∧
      (key = count_key_of usage_type w' ∨ key = cost_key_of usage_type w'))
    as Hold.
  { intros old -> [Htk | (w' & Hw' & Hkey)]%IH; [by left|].
    right. exists w'. split; [|done]. apply elem_of_app. by left. }
  case_decide as Hck; [right; exists w; auto|].
  case_decide as Hsk; [right; exists w; auto|].
  case_decide as Htk; [|by eauto].
  destruct (by_warehouse usage_type); simpl; [by left | by eauto].
Qed.
End Usages.

(** * [schema] *)

Section Schema.
Context {num : Type} `{PyNum num} `{BaseReportPlugin num}.
Implicit Types (db : DB num) (usage_type : UsageType).
Implicit Types (od : list (string * SchemaEntry)) (k : string).

Lemma od_set_fresh od k (v : SchemaEntry) :
  k ∉ od.*1 → od_set k v od = od ++ [(k, v)].
Proof.
  induction od as [|[k' v'] od IH]; intros Hk; simpl; [done|].
  rewrite fmap_cons in Hk. apply not_elem_of_cons in Hk as [Hne Hk].
  rewrite decide_False by done. by rewrite IH.
Qed.

Lemma od_set_keys od k (v : SchemaEntry) k' :
  k' ∈ (od_set k v od).*1 ↔ k' = k ∨ k' ∈ od.*1.
Proof.
  induction od as [|[k1 v1] od IH]; simpl.
  - rewrite list_elem_of_singleton, elem_of_nil. tauto.
  - case_decide; simplify_eq/=; rewrite ?fmap_cons, !elem_of_cons; simpl.
    + tauto.
    + rewrite IH. tauto.
Qed.

(** The column identifiers [schema] returns, whatever the warehouses. *)
Lemma schema_keys usage_type db :
  ∃ sch,
    returns (schema usage_type) db sch ∧
    ∀ k, k ∈ sch.*1 ↔
      if by_warehouse usage_type then
        k = total_cost_fmt (ut_id usage_type) ∨
        ∃ w, w ∈ get_warehouses db ∧
          (k = count_wh_key (ut_id usage_type) (wh_id w) ∨
           k = cost_wh_key (ut_id usage_type) (wh_id w))
      else k = count_fmt (ut_id usage_type) ∨ k = cost_fmt (ut_id usage_type).
Proof.
  unfold schema. destruct (by_warehouse usage_type).
  - eapply returns_bind_ex; [apply returns_query|].
    edestruct (returns_for_each_prefix (num:=num)
      (λ (pre : list Warehouse) (od : list (string * SchemaEntry)),
         ∀ k, k ∈ od.*1 ↔
           ∃ w, w ∈ pre ∧
             (k = count_wh_key (ut_id usage_type) (wh_id w) ∨
              k = cost_wh_key (ut_id usage_type) (wh_id w))))
      as (od & Hret & Hod); [| |eapply returns_bind_ex; [exact Hret|]].
    + intros k. rewrite elem_of_nil. split; [done|].
      by intros (w & Hw%elem_of_nil & _).
    + intros pre w suf od _ Hod. eexists. split; [apply returns_ret|].
      intros k. rewrite !od_set_keys, Hod. split.
      * intros [-> | [-> | (w' & Hw' & Hk)]].
        -- exists w. split; [apply elem_of_app; right; left | by right].
        -- exists w. split; [apply elem_of_app; right; left | by left].
        -- exists w'. split; [apply elem_of_app; by left | done].
      * intros (w' & [Hw' | ->%list_elem_of_singleton]%elem_of_app & Hk).
        -- right. right. by exists w'.
        -- destruct Hk as [-> | ->]; auto.
    + eexists. split; [apply returns_ret|]. intros k.
      by rewrite od_set_keys, Hod.
  - eexists. split; [apply returns_ret|]. intros k.
    rewrite !od_set_keys. simpl. rewrite elem_of_nil. tauto.
Qed.

Lemma warehouse_columns_keys usage_type (ws : list Warehouse) k :
  k ∈ (mjoin (warehouse_columns usage_type <$> ws)).*1 →
  ∃ w, w ∈ ws ∧
    (k = count_key_of usage_type (Some w) ∨ k = cost_key_of usage_type (Some w)).
Proof.
  induction ws as [|w ws IH]; simpl.
  - by intros ?%elem_of_nil.
  - rewrite !elem_of_cons. intros [-> | [-> | Hk]].
    + exists w. split; [left | by left].
    + exists w. split; [left | by right].
    + destruct (IH Hk) as (w' & Hw' & Hk'). exists w'. split; [by right | done].
Qed.

(** With distinct identifiers, every warehouse adds its two columns at
    the end. *)
Lemma schema_columns_returns usage_type db :
  (by_warehouse usage_type = true → NoDup (wh_id <$> get_warehouses db)) →
  returns (schema usage_type) db
    (schema_columns usage_type (get_warehouses db)).
Proof.
  intros Hnd. unfold schema, schema_columns.
  destruct (by_warehouse usage_type); last first.
  { simpl. rewrite decide_False; [apply returns_ret|].
    intros Heq. symmetry in Heq.
    by apply (count_key_ne_cost_key usage_type None None) in Heq. }
  specialize (Hnd eq_refl).
  eapply returns_bind; [apply returns_query|].
  edestruct (returns_for_each_prefix (num:=num)
    (λ (pre : list Warehouse) (od : list (string * SchemaEntry)),
       od = mjoin (warehouse_columns usage_type <$> pre)))
    as (od & Hret & ->); [| |eapply returns_bind; [exact Hret|]].
  - done.
  - intros pre w suf od Hws ->. eexists. split; [apply returns_ret|].
    rewrite Hws, fmap_app, fmap_cons in Hnd.
    apply NoDup_app in Hnd as (_ & Hpre & _).
    assert (∀ w', w' ∈ pre → wh_id w' ≠ wh_id w) as Hid.
    { intros w' Hw' Heq. apply (Hpre (wh_id w')).
      - by apply list_elem_of_fmap_2.
      - rewrite Heq. left. }
    set (od := mjoin (warehouse_columns usage_type <$> pre)).
    assert (count_wh_key (ut_id usage_type) (wh_id w) ∉ od.*1) as Hcount.
    { intros (w' & Hw' & [Hk|Hk])%warehouse_columns_keys.
      - apply (count_key_inj usage_type (Some w) (Some w')) in Hk.
        apply (Hid w' Hw'). by injection Hk.
      - by apply (count_key_ne_cost_key usage_type (Some w) (Some w')) in Hk. }
    rewrite (od_set_fresh od) by done.
    rewrite od_set_fresh.
    + unfold od. rewrite fmap_app, join_app. simpl. by rewrite <- app_assoc.
    + rewrite fmap_app, elem_of_app. simpl. rewrite list_elem_of_singleton.
      intros [(w' & Hw' & [Hk|Hk])%warehouse_columns_keys | Hk].
      * symmetry in Hk. by apply (count_key_ne_cost_key usage_type
          (Some w') (Some w)) in Hk.
      * apply (cost_key_inj usage_type (Some w) (Some w')) in Hk.
        apply (Hid w' Hw'). by injection Hk.
      * symmetry in Hk. by apply (count_key_ne_cost_key usage_type
          (Some w) (Some w)) in Hk.
  - rewrite od_set_fresh; [apply returns_ret|].
    intros (w & _ & [Hk|Hk])%warehouse_columns_keys; symmetry in Hk.
    + by apply (count_key_ne_total usage_type (Some w)) in Hk.
    + by apply (cost_key_ne_total usage_type (Some w)) in Hk.
Qed.
End Schema.

(** * The report as a whole *)

Section Report.
Context {num : Type} `{PyNum num} `{BaseReportPlugin num}.
Implicit Types (up : UsagePrice num) (db : DB num).
Implicit Types (usage_type : UsageType) (warehouse : option Warehouse).
Implicit Types (start : date) (ventures : list Venture).
Implicit Types (forecast no_price_msg : bool).

Lemma elem_of_insert_by_start up up' (l : list (UsagePrice num)) :
  up' ∈ insert_by_start up l ↔ up' = up ∨ up' ∈ l.
Proof.
  induction l as [|x l IH]; simpl.
  - rewrite list_elem_of_singleton, elem_of_nil. tauto.
  - case_decide; rewrite !elem_of_cons; [done|]. rewrite IH. tauto.
Qed.

Lemma elem_of_sorted_by_start up (l : list (UsagePrice num)) :
  up ∈ foldr insert_by_start [] l ↔ up ∈ l.
Proof.
  induction l as [|x l IH]; simpl; [done|].
  rewrite elem_of_insert_by_start, IH, elem_of_cons. done.
Qed.

(** The records of a pass are the records of the usage type (and of the
    warehouse) that overlap the range. *)
Lemma elem_of_report_prices usage_type start end_ warehouse db up :
  up ∈ report_prices usage_type start end_ warehouse db ↔
  up ∈ prices_of usage_type warehouse db ∧
  up_start up ≤ end_ ∧ start ≤ up_end up.
Proof.
  unfold report_prices.
  rewrite elem_of_sorted_by_start, list_elem_of_filter. tauto.
Qed.

(** C6. Every column identifier that [usages] puts in the mapping of a
    venture is a key of the mapping [schema] returns for the same usage
    type. The keys of the schema are, for a usage type by warehouse, the
    count and the cost of each warehouse and the total cost, and otherwise
    exactly the count and the cost. *)
Theorem usages_columns_in_schema start end_ ventures usage_type forecast
    no_price_msg db :
  ∃ result sch,
    returns (usages start end_ ventures usage_type forecast no_price_msg)
      db result ∧
    returns (schema usage_type) db sch ∧
    (∀ venture m key,
       result !! venture = Some m → is_Some (m !! key) → key ∈ sch.*1) ∧
    (∀ key, key ∈ sch.*1 ↔
       if by_warehouse usage_type then
         key = total_cost_fmt (ut_id usage_type) ∨
         ∃ w, w ∈ get_warehouses db ∧
           (key = count_wh_key (ut_id usage_type) (wh_id w) ∨
            key = cost_wh_key (ut_id usage_type) (wh_id w))
       else
         key = count_fmt (ut_id usage_type) ∨ key = cost_fmt (ut_id usage_type)).
Proof.
  destruct (usages_cells start end_ ventures usage_type forecast
              no_price_msg db) as (result & Hret & Hcells).
  destruct (schema_keys usage_type db) as (sch & Hsch & Hkeys).
  exists result, sch. repeat split; [done..| |apply Hkeys|apply Hkeys].
  intros venture m key Hm [c Hc].
  assert (cell_at result venture key = Some c) as Hcell.
  { apply cell_at_Some. by exists m. }
  rewrite Hcells in Hcell. unfold report_cell in Hcell.
  apply passes_key in Hcell. apply Hkeys. unfold report_warehouses in Hcell.
  destruct (by_warehouse usage_type).
  - destruct Hcell as [[_ ->] | (w & (w' & -> & Hw')%list_elem_of_fmap & Hkey)];
      [by left|].
    right. by exists w'.
  - destruct Hcell as [[? _] | (w & ->%list_elem_of_singleton & Hkey)]; done.
Qed.

(** C8. [usages] returns a mapping from ventures to mappings from column
    identifiers to values. [schema] returns the columns in rendering
    order: for a usage type by warehouse, for each warehouse of
    [get_warehouses()], in that order, a count column and right after it a
    cost column in currency, and the total-cost column last; otherwise a
    count column and then a cost column in currency marked as the total
    cost. The warehouses of a usage type by warehouse have distinct
    identifiers. *)
Theorem schema_rendering_order start end_ ventures usage_type forecast
    no_price_msg db :
  (by_warehouse usage_type = true → NoDup (wh_id <$> get_warehouses db)) →
  (∃ result : gmap Z (gmap string (cell num)),
     returns (usages start end_ ventures usage_type forecast no_price_msg)
       db result) ∧
  returns (schema usage_type) db
    (schema_columns usage_type (get_warehouses db)).
Proof.
  intros Hnd. split; [|by apply schema_columns_returns].
  destruct (usages_cells start end_ ventures usage_type forecast
              no_price_msg db) as (result & Hret & _).
  by exists result.
Qed.

(** C4. In [usages] and in [total_cost] only the price records that
    overlap the range are considered ([record.start <= end] and
    [record.end >= start]); each of them contributes the usage and the
    cost of its clipped sub-period
    [[max(start, record.start), min(end, record.end)]]. The contributions
    of the records are added up: per warehouse, in the usage and the cost
    of [_get_total_cost_by_warehouses], and per venture, in the cells of
    the mapping of [usages], where the count and the cost of a venture for
    a warehouse add up the rows of its pass (warehouses being told apart by
    their identifiers). *)
Theorem overlapping_records_aggregated start end_ ventures usage_type
    forecast no_price_msg db :
  (∀ warehouse up,
     up ∈ report_prices usage_type start end_ warehouse db ↔
     up ∈ prices_of usage_type warehouse db ∧
     up_start up ≤ end_ ∧ start ≤ up_end up) ∧
  returns
    (_get_total_cost_by_warehouses start end_ ventures usage_type forecast) db
    (mjoin ((λ w,
              [sum_over (report_prices usage_type start end_ w db)
                 (λ up,
                    _get_total_usage_in_period db
                      (Z.max start (up_start up)) (Z.min end_ (up_end up))
                      usage_type w ventures);
               D (sum_over (report_prices usage_type start end_ w db)
                    (λ up,
                       nmul
                         (D (_get_total_usage_in_period db
                               (Z.max start (up_start up))
                               (Z.min end_ (up_end up))
                               usage_type w ventures))
                         (applied_price usage_type forecast w db up)))])
            <$> report_warehouses usage_type db)
     ++ if by_warehouse usage_type
        then [foldl (λ acc w,
                nadd acc
                  (D (warehouse_cost usage_type start end_ ventures forecast db w)))
                (D n0) (report_warehouses usage_type db)]
        else []) ∧
  ∃ result,
    returns (usages start end_ ventures usage_type forecast no_price_msg)
      db result ∧
    (∀ venture key,
       cell_at result venture key
       = report_cell usage_type start end_ forecast ventures no_price_msg db
           venture key) ∧
    (∀ warehouse,
       report_prices usage_type start end_ warehouse db ≠ [] →
       pass_rows usage_type start end_ forecast ventures warehouse db
       = mjoin ((λ up,
                  (λ v, (applied_price usage_type forecast warehouse db up, v)) <$>
                    _get_usages_in_period_per_venture db
                      (Z.max start (up_start up)) (Z.min end_ (up_end up))
                      usage_type warehouse ventures)
                <$> report_prices usage_type start end_ warehouse db)) ∧
    (NoDup (pass_id <$> report_warehouses usage_type db) →
     ∀ warehouse venture,
       warehouse ∈ report_warehouses usage_type db →
       cell_at result venture (count_key_of usage_type warehouse)
       = accumulate None
           (venture_usages venture
              (pass_rows usage_type start end_ forecast ventures warehouse db)) ∧
       (pass_message usage_type start end_ no_price_msg warehouse db = None →
        cell_at result venture (cost_key_of usage_type warehouse)
        = accumulate None
            (venture_costs venture
               (pass_rows usage_type start end_ forecast ventures warehouse db)))).
Proof.
  split; [intros; apply elem_of_report_prices|].
  split; [apply returns_total_cost_by_warehouses|].
  destruct (usages_cells start end_ ventures usage_type forecast
              no_price_msg db) as (result & Hret & Hcells).
  exists result. split; [done|]. split; [done|].
  split; [intros; by apply pass_rows_records|].
  intros Hnd warehouse venture Hw. rewrite !Hcells. unfold report_cell.
  rewrite !(passes_own _ _ _ _ _ _ _ _ warehouse) by eauto.
  unfold pass_cell, cell_after. split.
  - by rewrite decide_True.
  - intros ->. rewrite decide_False, decide_True; [done..|].
    intros Heq. symmetry in Heq. by apply count_key_ne_cost_key in Heq.
Qed.

(** C7. The price applied to the clipped sub-period of a price record,
    in [total_cost] and in [usages], is the record's [forecast_price] when
    [forecast] is true and its [price] otherwise, unless the usage type is
    by cost: then it is the price [_get_price_from_cost] derives from the
    record, the forecast flag and the warehouse of the pass. *)
Theorem price_applied_to_record start end_ ventures usage_type forecast
    no_price_msg db :
  (∀ warehouse,
     warehouse_cost usage_type start end_ ventures forecast db warehouse
     = sum_over (report_prices usage_type start end_ warehouse db)
         (λ up,
            nmul
              (D (_get_total_usage_in_period db
                    (Z.max start (up_start up)) (Z.min end_ (up_end up))
                    usage_type warehouse ventures))
              (if by_cost usage_type
               then _get_price_from_cost db up forecast warehouse
               else if forecast then forecast_price up else price up))) ∧
  returns (total_cost start end_ ventures usage_type forecast) db
    (cost_of_report_decimal usage_type start end_ ventures forecast db) ∧
  ∃ result,
    returns (usages start end_ ventures usage_type forecast no_price_msg)
      db result ∧
    (∀ venture key,
       cell_at result venture key
       = report_cell usage_type start end_ forecast ventures no_price_msg db
           venture key) ∧
    (∀ warehouse,
       report_prices usage_type start end_ warehouse db ≠ [] →
       pass_rows usage_type start end_ forecast ventures warehouse db
       = mjoin ((λ up,
                  (λ v,
                     (if by_cost usage_type
                      then _get_price_from_cost db up forecast warehouse
                      else if forecast then forecast_price up else price up,
                      v)) <$>
                    _get_usages_in_period_per_venture db
                      (Z.max start (up_start up)) (Z.min end_ (up_end up))
                      usage_type warehouse ventures)
                <$> report_prices usage_type start end_ warehouse db)).
Proof.
  split; [done|]. split.
  { unfold total_cost.
    eapply returns_bind; [apply returns_total_cost_by_warehouses|].
    rewrite last_cost_of_report. apply returns_ret. }
  destruct (usages_cells start end_ ventures usage_type forecast
              no_price_msg db) as (result & Hret & Hcells).
  exists result. split; [done|]. split; [done|].
  intros warehouse Hne. by rewrite pass_rows_records.
Qed.
End Report.

(** * The store is only read *)

(** One step through a computation: a return, a raise, a query, a
    sequence, a loop or a case distinction. *)
Ltac read_only_step :=
  first
    [ apply read_only_ret
    | apply read_only_raise
    | apply read_only_query
    | apply read_only_bind
    | apply read_only_for_each
    | match goal with
      | |- read_only (match ?x with _ => _ end) => destruct x
      | |- read_only ((match ?x with _ => _ end) _) => destruct x
      end ].

Section ReadOnly.
Context {num : Type} `{PyNum num} `{BaseReportPlugin num}.

Lemma read_only_dd_iadd (result : gmap Z (gmap string (cell num)))
    venture key x :
  read_only (dd_iadd result venture key x).
Proof. unfold dd_iadd, cell_add. repeat (intros; read_only_step). Qed.

Lemma read_only_incomplete_price usage_type start end_ warehouse :
  read_only (num:=num) (_incomplete_price usage_type start end_ warehouse).
Proof. unfold _incomplete_price, fetch. repeat (intros; read_only_step). Qed.

Lemma read_only_warehouses_of usage_type :
  read_only (warehouses_of usage_type).
Proof. unfold warehouses_of. repeat (intros; read_only_step). Qed.

Lemma read_only_total_cost_by_warehouses start end_ ventures usage_type forecast :
  read_only
    (_get_total_cost_by_warehouses start end_ ventures usage_type forecast).
Proof.
  unfold _get_total_cost_by_warehouses, fetch.
  repeat (intros; first [apply read_only_warehouses_of | read_only_step]).
Qed.

Lemma read_only_add_usages_per_venture usage_type warehouse ventures
    price_undefined count_key cost_key total_cost_key up_start_ up_end_
    price_ result :
  read_only
    (add_usages_per_venture usage_type warehouse ventures price_undefined
       count_key cost_key total_cost_key up_start_ up_end_ price_ result).
Proof.
  unfold add_usages_per_venture.
  repeat (intros; first [apply read_only_dd_iadd | read_only_step]).
Qed.

Lemma read_only_usages_in_warehouse usage_type start end_ forecast ventures
    no_price_msg result warehouse :
  read_only
    (usages_in_warehouse usage_type start end_ forecast ventures no_price_msg
       result warehouse).
Proof.
  unfold usages_in_warehouse, pass_keys, fetch.
  repeat (intros; first
    [ apply read_only_incomplete_price
    | apply read_only_add_usages_per_venture
    | read_only_step ]).
Qed.

(** C9. [usages], [total_cost] and [schema] only read the stored
    records of usage types, usage prices, ventures and warehouses: after
    each of them, whether it returns or raises, the store is as it was. *)
Theorem store_unchanged start end_ ventures usage_type forecast no_price_msg :
  read_only (usages start end_ ventures usage_type forecast no_price_msg) ∧
  read_only (total_cost start end_ ventures usage_type forecast) ∧
  read_only (num:=num) (schema usage_type).
Proof.
  repeat split.
  - unfold usages, _get_usages_per_warehouse.
    apply read_only_bind; [apply read_only_warehouses_of|].
    intros ws. apply read_only_for_each. intros result warehouse.
    apply read_only_usages_in_warehouse.
  - unfold total_cost.
    apply read_only_bind; [apply read_only_total_cost_by_warehouses|].
    repeat (intros; read_only_step).
  - unfold schema. repeat (intros; read_only_step).
Qed.
End ReadOnly.

(** * Computations that agree on a store *)

Section Agreement.
Context {num : Type} `{PyNum num}.

Lemma bind_same {A B} (m1 m2 : M num A) (f1 f2 : A → M num B) db :
  m1 db = m2 db → read_only m1 → (∀ a, f1 a db = f2 a db) →
  (m1 ≫= f1) db = (m2 ≫= f2) db.
Proof.
  intros Hm Hro Hf. unfold mbind, M_bind, bind. rewrite <- Hm.
  specialize (Hro db). destruct (m1 db) as [[a|] db']; simpl in *; subst; auto.
Qed.
End Agreement.

(** * The plugin on the sample stores *)

Section Examples.
Import Sample.

Example incomplete_price_twice :
  _incomplete_price power 1 10 None twice = (Some None, twice).
Proof. vm_compute. reflexivity. Qed.

Example incomplete_price_racks_a :
  _incomplete_price rack 1 10 (Some wh_a) racks
  = (Some (Some "Incomplete price"), racks).
Proof. vm_compute. reflexivity. Qed.

Example incomplete_price_racks_b :
  _incomplete_price rack 1 10 (Some wh_b) racks = (Some (Some "No price"), racks).
Proof. vm_compute. reflexivity. Qed.

(** Price records for days 1 to 5 and 3 to 7 price every day of the range
    [[1, 7]], and count ten days for its seven. *)
Example incomplete_price_overlapping :
  _incomplete_price power 1 7 None
    (store [price_record 7 1 5 2 3 None; price_record 7 3 7 2 3 None] [])
  = (Some (Some "Incomplete price"),
     store [price_record 7 1 5 2 3 None; price_record 7 3 7 2 3 None] []).
Proof. vm_compute. reflexivity. Qed.

Example total_cost_split :
  total_cost (H:=PyNum_Z) (H0:=base) 1 10 [] power false split = (Some 30, split).
Proof. vm_compute. reflexivity. Qed.

Example total_cost_by_warehouses_racks :
  _get_total_cost_by_warehouses (H:=PyNum_Z) (H0:=base) 1 10 [] rack false racks
  = (Some [5; 10; 0; 0; 10], racks).
Proof. vm_compute. reflexivity. Qed.

(** Venture 2 in the second warehouse, which has no price: with messages,
    and without. *)
Example usages_racks_messages :
  (λ result,
     (cell_at result 2 "ut_8_count_wh_2", cell_at result 2 "ut_8_cost_wh_2",
      cell_at result 2 "ut_8_total_cost"))
  <$> (usages (H:=PyNum_Z) (H0:=base) 1 10 [] rack false true racks).1
  = Some (Some (Num 10), Some (Msg "No price"), None).
Proof. vm_compute. reflexivity. Qed.

Example usages_racks_numbers :
  (λ result,
     (cell_at result 2 "ut_8_count_wh_2", cell_at result 2 "ut_8_cost_wh_2",
      cell_at result 2 "ut_8_total_cost"))
  <$> (usages (H:=PyNum_Z) (H0:=base) 1 10 [] rack false false racks).1
  = Some (Some (Num 10), Some (Num 0), Some (Num 20)).
Proof. vm_compute. reflexivity. Qed.

Example schema_keys_racks :
  (λ sch, sch.*1) <$> (schema (H0:=base) rack racks).1
  = Some ["ut_8_count_wh_1"; "ut_8_cost_wh_1"; "ut_8_count_wh_2";
          "ut_8_cost_wh_2"; "ut_8_total_cost"].
Proof. vm_compute. reflexivity. Qed.

Lemma total_cost_sum_split :
  cost_of_report_decimal (H:=PyNum_Z) (H0:=base) power 1 10 [] false split
  = cost_of_report (H:=PyNum_Z) (H0:=base) power 1 10 [] false split.
Proof.
  destruct (@total_cost_sum Z PyNum_Z base power 1 10 [] false split)
    as (costs & _ & _ & _ & Hexact).
  apply Hexact; intros x; simpl; lia.
Defined.

Lemma usages_costs_are_numbers_no_prices :
  ∃ result,
    returns (usages (H:=PyNum_Z) (H0:=base) 1 10 [] power false false)
      (store [] []) result ∧
    cell_at result 1 "ut_7_count" = Some (Num 10) ∧
    ∀ c, cell_at result 1 "ut_7_cost" = Some c → c = Num 0.
Proof.
  destruct (@usages_costs_are_numbers Z PyNum_Z base 1 10 [] power false
              (store [] [])) as (result & Hret & _ & Hzero).
  destruct Hzero as (Hcost & _ & Hcount).
  { apply Forall_nil_2. }
  { intros x. simpl. lia. }
  { reflexivity. }
  exists result. split; [exact Hret|]. split.
  - replace "ut_7_count" with (count_key_of power None)
      by (vm_compute; reflexivity).
    rewrite (Hcount (NoDup_singleton None) None 1); [reflexivity|]. left.
  - replace "ut_7_cost" with (cost_key_of power None)
      by (vm_compute; reflexivity).
    apply (Hcost None 1).
Defined.

Lemma overlapping_records_aggregated_split :
  ∃ result,
    returns (usages (H:=PyNum_Z) (H0:=base) 1 10 [] power false false)
      split result ∧
    cell_at result 2 "ut_7_count" = Some (Num 20) ∧
    cell_at result 2 "ut_7_cost" = Some (Num 60).
Proof.
  destruct (@overlapping_records_aggregated Z PyNum_Z base 1 10 [] power
              false false split)
    as (_ & _ & result & Hret & _ & _ & Hcells).
  destruct (Hcells (NoDup_singleton None) None 2) as [Hcount Hcost]; [left|].
  exists result. split; [exact Hret|]. split.
  - replace "ut_7_count" with (count_key_of power None)
      by (vm_compute; reflexivity).
    rewrite Hcount. vm_compute. reflexivity.
  - replace "ut_7_cost" with (cost_key_of power None)
      by (vm_compute; reflexivity).
    rewrite Hcost; [|reflexivity]. vm_compute. reflexivity.
Defined.


Lemma price_applied_to_record_split :
  pass_rows (H:=PyNum_Z) (H0:=base) power 1 10 false [] None split
  = [(2, {| pricing_venture := 1; usage := 5 |});
     (2, {| pricing_venture := 2; usage := 10 |});
     (4, {| pricing_venture := 1; usage := 5 |});
     (4, {| pricing_venture := 2; usage := 10 |})].
Proof.
  destruct (@price_applied_to_record Z PyNum_Z base 1 10 [] power false false
              split)
    as (_ & _ & result & _ & _ & Hrows).
  rewrite Hrows.
  - vm_compute. reflexivity.
  - vm_compute. discriminate.
Defined.

Lemma schema_rendering_order_racks :
  (∃ result : gmap Z (gmap string (cell Z)),
     returns (usages (H:=PyNum_Z) (H0:=base) 1 10 [] rack false true)
       racks result) ∧
  returns (schema (H0:=base) rack) racks (schema_columns rack [wh_a; wh_b]).
Proof.
  apply (@schema_rendering_order Z PyNum_Z base 1 10 [] rack false true racks).
  intros _. apply (bool_decide_unpack _). vm_compute. exact I.
Defined.
End Examples.

(** * More on [_incomplete_price] *)

Section IncompletePriceOrder.
Context {num : Type}.
Implicit Types (up : UsagePrice num) (db : DB num).
Implicit Types (usage_type : UsageType) (warehouse : option Warehouse).

(** A sum of integers from [acc] is [acc] plus the sum from [0]. *)
Lemma foldl_add_acc {A} (f : A → Z) (l : list A) (acc : Z) :
  foldl (λ acc x, acc + f x) acc l = acc + foldl (λ acc x, acc + f x) 0 l.
Proof.
  revert acc. induction l as [|x l IH]; intros acc; simpl; [lia|].
  rewrite (IH (acc + f x)), (IH (0 + f x)). lia.
Qed.

Lemma foldl_add_permutation {A} (f : A → Z) (l l' : list A) (acc : Z) :
  l ≡ₚ l' →
  foldl (λ acc x, acc + f x) acc l = foldl (λ acc x, acc + f x) acc l'.
Proof.
  intros Hperm. revert acc.
  induction Hperm as [|x l l' _ IH|x y l|l l' l'' _ IH1 _ IH2]; intros acc; simpl.
  - done.
  - apply IH.
  - f_equal. lia.
  - by rewrite IH1.
Qed.

(** The answer of [_incomplete_price] does not depend on the order in which
    the price records are stored: the loop has no [order_by], and it adds up
    integers. *)
Theorem incomplete_price_any_order usage_type start end_ warehouse db db' :
  UsagePrice_objects db ≡ₚ UsagePrice_objects db' →
  (_incomplete_price usage_type start end_ warehouse db).1
  = (_incomplete_price usage_type start end_ warehouse db').1.
Proof.
  intros Hperm.
  rewrite (incomplete_price_returns usage_type start end_ warehouse db).
  rewrite (incomplete_price_returns usage_type start end_ warehouse db').
  simpl.
  assert (filter (overlaps start end_) (prices_of usage_type warehouse db)
          ≡ₚ filter (overlaps start end_) (prices_of usage_type warehouse db'))
    as Hfilter.
  { unfold prices_of. by rewrite Hperm. }
  by rewrite (foldl_add_permutation _ _ _ 0 Hfilter).
Qed.
End IncompletePriceOrder.

Section IncompletePriceRanges.
Context {num : Type}.
Implicit Types (up : UsagePrice num) (db : DB num).
Implicit Types (usage_type : UsageType) (warehouse : option Warehouse).
Implicit Types (l : list (UsagePrice num)).

(** What [_incomplete_price] returns, from the sum it computes. *)
Lemma incomplete_price_cases usage_type start end_ warehouse db r :
  returns (_incomplete_price usage_type start end_ warehouse) db r →
  let ut_days :=
    foldl (λ acc up,
        acc + (Z.min end_ (up_end up) - Z.max start (up_start up) + 1))
      0 (filter (overlaps start end_) (prices_of usage_type warehouse db)) in
  (r = Some "No price" ↔ ut_days = 0) ∧
  (r = None ↔ ut_days ≠ 0 ∧ ut_days = end_ - start + 1).
Proof.
  intros Hr ut_days.
  pose proof (incomplete_price_returns usage_type start end_ warehouse db) as Hv.
  simpl in Hv. fold ut_days in Hv. unfold returns in *.
  rewrite Hv in Hr. injection Hr as <-.
  repeat case_decide; split; split; intros; try done; try lia;
    by destruct_and?.
Qed.

(** A well-formed record that overlaps a non-empty range shares at least
    one day with it. *)
Lemma overlap_sum_lower start end_ l (acc : Z) :
  start ≤ end_ →
  Forall (λ up, overlaps start end_ up ∧ up_start up ≤ up_end up) l →
  acc + Z.of_nat (length l)
  ≤ foldl (λ acc up,
        acc + (Z.min end_ (up_end up) - Z.max start (up_start up) + 1))
      acc l.
Proof.
  intros Hse Hl. revert acc.
  induction Hl as [|up l [Hov Hwf] _ IH]; intros acc; simpl; [lia|].
  specialize (IH (acc + (Z.min end_ (up_end up) - Z.max start (up_start up) + 1))).
  unfold overlaps in Hov. lia.
Qed.

(** ['No price'] is the answer whenever no price record overlaps the range,
    and, for a non-empty range and well-formed records, only then: also when
    the records overlap each other. *)
Theorem no_price_iff_no_record usage_type start end_ warehouse db :
  (Forall (λ up, ¬ overlaps start end_ up) (prices_of usage_type warehouse db) →
   returns (_incomplete_price usage_type start end_ warehouse) db
     (Some "No price")) ∧
  (start ≤ end_ →
   Forall (λ up, up_start up ≤ up_end up)
     (filter (overlaps start end_) (prices_of usage_type warehouse db)) →
   returns (_incomplete_price usage_type start end_ warehouse) db
     (Some "No price") →
   Forall (λ up, ¬ overlaps start end_ up) (prices_of usage_type warehouse db)).
Proof.
  pose proof (incomplete_price_returns usage_type start end_ warehouse db) as Hv.
  simpl in Hv. split.
  - intros Hno.
    assert (filter (overlaps start end_) (prices_of usage_type warehouse db) = [])
      as Hnil.
    { apply elem_of_nil_inv. intros up [Hov Hin]%list_elem_of_filter.
      rewrite Forall_forall in Hno. by apply (Hno up). }
    by rewrite Hnil in Hv.
  - intros Hse Hwf Hr.
    apply incomplete_price_cases in Hr as [[Hzero _] _].
    specialize (Hzero eq_refl).
    pose proof (overlap_sum_lower start end_
      (filter (overlaps start end_) (prices_of usage_type warehouse db)) 0 Hse)
      as Hlow.
    apply Forall_forall. intros up Hin Hov.
    assert (up ∈ filter (overlaps start end_) (prices_of usage_type warehouse db))
      as Hin' by by apply list_elem_of_filter.
    destruct (filter (overlaps start end_) (prices_of usage_type warehouse db))
      as [|up' l] eqn:Hl; [by apply elem_of_nil in Hin'|].
    assert (Forall (λ up, overlaps start end_ up ∧ up_start up ≤ up_end up)
              (up' :: l)) as Hall.
    { apply Forall_forall. intros x Hx. split.
      - rewrite <- Hl in Hx. by apply list_elem_of_filter in Hx as [? _].
      - rewrite Forall_forall in Hwf. by apply Hwf. }
    specialize (Hlow Hall). simpl in Hlow, Hzero. rewrite Hzero in Hlow. lia.
Qed.

(** The sum over the overlapping records is the sum, over all records, of
    the days each shares with the range. *)
Lemma overlap_sum_all start end_ l (acc : Z) :
  start ≤ end_ →
  Forall (λ up, up_start up ≤ up_end up) l →
  foldl (λ acc up,
      acc + (Z.min end_ (up_end up) - Z.max start (up_start up) + 1))
    acc (filter (overlaps start end_) l)
  = foldl (λ acc up,
        acc + Z.max 0 (Z.min end_ (up_end up) - Z.max start (up_start up) + 1))
      acc l.
Proof.
  intros Hse Hl. revert acc.
  induction Hl as [|up l Hwf _ IH]; intros acc; [done|].
  rewrite filter_cons. simpl. case_decide as Hov; simpl; rewrite IH; f_equal;
    unfold overlaps in Hov; lia.
Qed.

(** The days a record shares with a range are those it shares with its two
    parts. *)
Lemma overlap_sum_split start mid end_ l (acc : Z) :
  start ≤ mid → mid < end_ →
  Forall (λ up, up_start up ≤ up_end up) l →
  foldl (λ acc up,
      acc + Z.max 0 (Z.min end_ (up_end up) - Z.max start (up_start up) + 1))
    acc l
  = acc
    + foldl (λ acc up,
          acc + Z.max 0 (Z.min mid (up_end up) - Z.max start (up_start up) + 1))
        0 l
    + foldl (λ acc up,
          acc + Z.max 0 (Z.min end_ (up_end up) - Z.max (mid + 1) (up_start up) + 1))
        0 l.
Proof.
  intros Hsm Hme Hl. revert acc.
  induction Hl as [|up l Hwf _ IH]; intros acc; simpl; [lia|].
  rewrite IH.
  rewrite (foldl_add_acc _ l (0 + Z.max 0 (Z.min mid (up_end up) - _ + 1))).
  rewrite (foldl_add_acc _ l (0 + Z.max 0 (Z.min end_ (up_end up) - _ + 1))).
  lia.
Qed.

Lemma overlap_sum_nonneg start end_ l :
  0 ≤ foldl (λ acc up,
        acc + Z.max 0 (Z.min end_ (up_end up) - Z.max start (up_start up) + 1))
      0 l.
Proof.
  induction l as [|up l IH]; simpl; [lia|]. rewrite foldl_add_acc. lia.
Qed.

(** Two ranges that follow each other: when the price is complete on both,
    it is complete on their union; and there is no price on the union exactly
    when there is none on either. The price records need not be disjoint. *)
Theorem incomplete_price_adjacent usage_type start mid end_ warehouse db :
  start ≤ mid → mid < end_ →
  Forall (λ up, up_start up ≤ up_end up) (prices_of usage_type warehouse db) →
  (returns (_incomplete_price usage_type start mid warehouse) db None →
   returns (_incomplete_price usage_type (mid + 1) end_ warehouse) db None →
   returns (_incomplete_price usage_type start end_ warehouse) db None) ∧
  (returns (_incomplete_price usage_type start end_ warehouse) db
     (Some "No price") ↔
   returns (_incomplete_price usage_type start mid warehouse) db
     (Some "No price") ∧
   returns (_incomplete_price usage_type (mid + 1) end_ warehouse) db
     (Some "No price")).
Proof.
  intros Hsm Hme Hwf.
  set (l := prices_of usage_type warehouse db) in *.
  pose proof (incomplete_price_returns usage_type start end_ warehouse db) as Hv.
  pose proof (incomplete_price_returns usage_type start mid warehouse db) as Hv1.
  pose proof (incomplete_price_returns usage_type (mid + 1) end_ warehouse db)
    as Hv2.
  simpl in Hv, Hv1, Hv2. fold l in Hv, Hv1, Hv2.
  rewrite (overlap_sum_all start end_ l 0) in Hv by (done || lia).
  rewrite (overlap_sum_all start mid l 0) in Hv1 by done.
  rewrite (overlap_sum_all (mid + 1) end_ l 0) in Hv2 by (done || lia).
  rewrite (overlap_sum_split start mid end_ l 0) in Hv by done.
  pose proof (overlap_sum_nonneg start mid l) as Hn1.
  pose proof (overlap_sum_nonneg (mid + 1) end_ l) as Hn2.
  set (u1 := foldl _ 0 l) in Hv, Hv1, Hn1.
  set (u2 := foldl _ 0 l) in Hv, Hv2, Hn2.
  unfold returns in *. rewrite Hv, Hv1, Hv2. clear Hv Hv1 Hv2.
  repeat case_decide; repeat split; intros; destruct_and?; simplify_eq; lia.
Qed.
End IncompletePriceRanges.

(** * More on the mapping of [usages] *)

Section UsagesColumns.
Context {num : Type} `{PyNum num} `{BaseReportPlugin num}.
Implicit Types (up : UsagePrice num) (db : DB num).
Implicit Types (usage_type : UsageType) (warehouse : option Warehouse).
Implicit Types (start : date) (ventures : list Venture).
Implicit Types (forecast no_price_msg : bool).
Implicit Types (old : option (cell num)) (venture : Z) (key : string).

(** Whatever [no_price_msg] is: a message in the mapping of [usages] is
    one of the two messages, [no_price_msg] is set, and the message is the
    cost of a warehouse for which [_incomplete_price] answers it. The count
    and the total cost are always numbers. *)
Theorem messages_only_as_costs start end_ ventures usage_type forecast
    no_price_msg db :
  ∃ result,
    returns (usages start end_ ventures usage_type forecast no_price_msg)
      db result ∧
    (∀ venture m key msg,
       result !! venture = Some m → m !! key = Some (Msg msg) →
       no_price_msg = true ∧
       (msg = "No price" ∨ msg = "Incomplete price") ∧
       ∃ warehouse,
         warehouse ∈ report_warehouses usage_type db ∧
         key = cost_key_of usage_type warehouse ∧
         returns (_incomplete_price usage_type start end_ warehouse) db
           (Some msg)) ∧
    (∀ venture warehouse c,
       cell_at result venture (count_key_of usage_type warehouse) = Some c →
       is_num c) ∧
    (∀ venture c,
       cell_at result venture (total_cost_fmt (ut_id usage_type)) = Some c →
       is_num c).
Proof.
  destruct (usages_cells start end_ ventures usage_type forecast
              no_price_msg db) as (result & Hret & Hcells).
  exists result. split; [done|]. split; [|split].
  - intros venture m key msg Hm Hmsg.
    assert (cell_at result venture key = Some (Msg msg)) as Hcell.
    { apply cell_at_Some. by exists m. }
    rewrite Hcells in Hcell. apply passes_msg in Hcell as (w & Hw & -> & Hpu).
    destruct no_price_msg; [|done].
    split; [done|]. split.
    + by apply (price_message_sentinel usage_type start end_ w db).
    + exists w. split; [done|]. split; [done|].
      pose proof (returns_price_undefined usage_type start end_ true w db) as Hv.
      by rewrite Hpu in Hv.
  - intros venture warehouse [x|msg]; [done|]. rewrite Hcells.
    intros (w & _ & Hkey & _)%passes_msg.
    by apply count_key_ne_cost_key in Hkey.
  - intros venture [x|msg]; [done|]. rewrite Hcells.
    intros (w & _ & Hkey & _)%passes_msg. symmetry in Hkey.
    by apply cost_key_ne_total in Hkey.
Qed.

Lemma cell_num_accumulate old (xs : list num) :
  cell_num (accumulate old xs) = foldl nadd (cell_num old) xs.
Proof. by destruct xs. Qed.

Lemma cell_num_accumulate_all {A} (f : A → list num) (l : list A) old :
  cell_num (foldl (λ old w, accumulate old (f w)) old l)
  = foldl (λ acc w, foldl nadd acc (f w)) (cell_num old) l.
Proof.
  revert old. induction l as [|w l IH]; intros old; simpl; [done|].
  by rewrite IH, cell_num_accumulate.
Qed.

(** In an arithmetic with an associative [+] and a neutral [0], a sum from
    [acc] is [acc] plus the sum from [0]. *)
Lemma foldl_nadd_acc (xs : list num) (acc : num) :
  (∀ x y z : num, nadd x (nadd y z) = nadd (nadd x y) z) →
  (∀ x : num, nadd n0 x = x) → (∀ x : num, nadd x n0 = x) →
  foldl nadd acc xs = nadd acc (foldl nadd n0 xs).
Proof.
  intros Hassoc Hleft Hright. revert acc.
  induction xs as [|x xs IH]; intros acc; simpl; [by rewrite Hright|].
  rewrite (IH (nadd acc x)), (IH (nadd n0 x)), Hleft. by rewrite Hassoc.
Qed.

Lemma foldl_ext_in {A B} (f g : B → A → B) (l : list A) (b : B) :
  (∀ b x, x ∈ l → f b x = g b x) → foldl f b l = foldl g b l.
Proof.
  revert b. induction l as [|x l IH]; intros b Hfg; simpl; [done|].
  rewrite Hfg by left. apply IH. intros b' y Hy. apply Hfg. by right.
Qed.

(** The total cost of a venture is the sum of its costs in the warehouses,
    where a cost that is a message, or that is not there, counts as [0]: in
    an arithmetic with an associative [+] and a neutral [0], and with
    warehouses told apart by their identifiers. *)
Theorem total_cost_column_is_sum start end_ ventures usage_type forecast
    no_price_msg db :
  by_warehouse usage_type = true →
  NoDup (pass_id <$> report_warehouses usage_type db) →
  (∀ x y z : num, nadd x (nadd y z) = nadd (nadd x y) z) →
  (∀ x : num, nadd n0 x = x) → (∀ x : num, nadd x n0 = x) →
  ∃ result,
    returns (usages start end_ ventures usage_type forecast no_price_msg)
      db result ∧
    ∀ venture,
      cell_num (cell_at result venture (total_cost_fmt (ut_id usage_type)))
      = foldl (λ acc w,
            nadd acc
              (cell_num (cell_at result venture (cost_key_of usage_type w))))
          n0 (report_warehouses usage_type db).
Proof.
  intros Hbw Hnd Hassoc Hleft Hright.
  destruct (usages_cells start end_ ventures usage_type forecast
              no_price_msg db) as (result & Hret & Hcells).
  exists result. split; [done|]. intros venture.
  set (costs := λ w,
    venture_costs venture
      (pass_rows usage_type start end_ forecast ventures w db)).
  set (defined := λ w,
    pass_message usage_type start end_ no_price_msg w db = None).
  transitivity (foldl (λ acc w,
      nadd acc (if decide (defined w) then foldl nadd n0 (costs w) else n0))
    n0 (report_warehouses usage_type db)).
  - rewrite Hcells. unfold report_cell. rewrite passes_total by done.
    rewrite (cell_num_accumulate_all costs). simpl. fold defined.
    clear Hnd Hcells Hret. generalize (@n0 num _) at 1 4 as acc.
    induction (report_warehouses usage_type db) as [|w ws IH]; intros acc;
      [done|].
    rewrite filter_cons. simpl. case_decide.
    + simpl. rewrite IH. by rewrite (foldl_nadd_acc (costs w) acc) by done.
    + rewrite IH. by rewrite Hright.
  - apply foldl_ext_in. intros acc w Hw. f_equal.
    rewrite Hcells. unfold report_cell.
    rewrite (passes_own _ _ _ _ _ _ _ _ w) by eauto.
    assert (cost_key_of usage_type w ≠ count_key_of usage_type w) as Hne.
    { intros Heq. symmetry in Heq. by apply count_key_ne_cost_key in Heq. }
    unfold defined. case_decide as Hpu; unfold pass_cell, cell_after;
      rewrite decide_False, decide_True by done; fold (costs w).
    + rewrite Hpu. by rewrite cell_num_accumulate.
    + destruct (pass_message _ _ _ _ _ _) as [msg|]; [|done].
      unfold overwrite. by case_match.
Qed.
End UsagesColumns.

(** * The ventures of the mapping of [usages] *)

Section Ensuring.
Context {num : Type}.

Lemma ensures_ret {A} (a : A) (Q : A → Prop) : Q a → ensures (@ret num A a) Q.
Proof. intros Ha db a' db' [= <- _]. exact Ha. Qed.

Lemma ensures_raise {A} (Q : A → Prop) : ensures (@raise num A) Q.
Proof. intros db a db' [=]. Qed.

Lemma ensures_query {A} (q : DB num → A) (Q : A → Prop) :
  (∀ db, Q (q db)) → ensures (query q) Q.
Proof. intros Hq db a db' [= <- _]. apply Hq. Qed.

Lemma ensures_bind {A B} (m : M num A) (f : A → M num B)
    (P : A → Prop) (Q : B → Prop) :
  ensures m P → (∀ a, P a → ensures (f a) Q) → ensures (m ≫= f) Q.
Proof.
  intros Hm Hf db b db'. unfold mbind, M_bind, bind.
  destruct (m db) as [[a|] db1] eqn:Hmdb; [|done].
  intros Hfa. apply (Hf a (Hm db a db1 Hmdb) db1 b db' Hfa).
Qed.

Lemma ensures_for_each {A S} (P : S → Prop) (body : S → A → M num S) l s :
  P s → (∀ s x, P s → ensures (body s x) P) → ensures (for_each body l s) P.
Proof.
  intros Hs Hbody. revert s Hs. induction l as [|x l IH]; intros s Hs; simpl.
  - by apply ensures_ret.
  - apply (ensures_bind (body s x) _ P); [by apply Hbody | apply IH].
Qed.
End Ensuring.

Section Ventures.
Context {num : Type} `{PyNum num} `{BaseReportPlugin num}.
Implicit Types (db : DB num) (usage_type : UsageType).
Implicit Types (warehouse : option Warehouse).
Implicit Types (start : date) (ventures : list Venture).
Implicit Types (forecast no_price_msg : bool).
Implicit Types (result : gmap Z (gmap string (cell num))).
Implicit Types (old : option (cell num)) (venture : Z) (key : string).

Lemma no_empty_venture_dd_set result venture key (c : cell num) :
  no_empty_venture result → no_empty_venture (dd_set result venture key c).
Proof.
  intros Hresult venture' m. unfold dd_set.
  destruct (decide (venture = venture')) as [<-|Hne].
  - rewrite lookup_insert_eq. intros [= <-]. apply insert_non_empty.
  - rewrite lookup_insert_ne by done. apply Hresult.
Qed.

Lemma ensures_dd_iadd result venture key (x : num) :
  no_empty_venture result →
  ensures (dd_iadd result venture key x) no_empty_venture.
Proof.
  intros Hresult. unfold dd_iadd, cell_add.
  apply (ensures_bind _ _ (λ _, True)).
  - by intros db a db' _.
  - intros c _. by apply ensures_ret, no_empty_venture_dd_set.
Qed.

Lemma ensures_add_usages_per_venture usage_type warehouse ventures
    (price_undefined : option string) (count_key cost_key : string)
    (total_cost_key : option string) (up_start_ up_end_ : date) (price_ : num)
    result :
  no_empty_venture result →
  ensures
    (add_usages_per_venture usage_type warehouse ventures price_undefined
       count_key cost_key total_cost_key up_start_ up_end_ price_ result)
    no_empty_venture.
Proof.
  intros Hresult. unfold add_usages_per_venture.
  apply (ensures_bind _ _ (λ _, True)); [by intros db a db' _|].
  intros rows _. apply ensures_for_each; [done|].
  intros r v Hr.
  apply (ensures_bind _ _ no_empty_venture); [by apply ensures_dd_iadd|].
  intros r1 Hr1.
  apply (ensures_bind _ _ no_empty_venture).
  - destruct price_undefined as [msg|].
    + by apply ensures_ret, no_empty_venture_dd_set.
    + by apply ensures_dd_iadd.
  - intros r2 Hr2. destruct (by_warehouse usage_type && _).
    + destruct total_cost_key; [by apply ensures_dd_iadd | apply ensures_raise].
    + by apply ensures_ret.
Qed.

Lemma ensures_usages_in_warehouse usage_type start end_ forecast ventures
    no_price_msg result warehouse :
  no_empty_venture result →
  ensures
    (usages_in_warehouse usage_type start end_ forecast ventures no_price_msg
       result warehouse)
    no_empty_venture.
Proof.
  intros Hresult. unfold usages_in_warehouse.
  apply (ensures_bind _ _ (λ _, True)); [by intros db a db' _|].
  intros price_undefined _.
  apply (ensures_bind _ _ (λ _, True)); [by intros db a db' _|].
  intros [[count_key cost_key] total_cost_key] _.
  apply (ensures_bind _ _ (λ _, True)); [by intros db a db' _|].
  intros [|up ups] _; [by apply ensures_add_usages_per_venture|].
  apply ensures_for_each; [done|]. intros r usage_price Hr.
  apply (ensures_bind _ _ (λ _, True)); [by intros db a db' _|].
  intros price_ _. by apply ensures_add_usages_per_venture.
Qed.

Lemma ensures_usages start end_ ventures usage_type forecast no_price_msg :
  ensures (usages start end_ ventures usage_type forecast no_price_msg)
    no_empty_venture.
Proof.
  unfold usages, _get_usages_per_warehouse.
  apply (ensures_bind _ _ (λ _, True)); [by intros db a db' _|].
  intros ws _. apply ensures_for_each.
  - intros venture m. by rewrite lookup_empty.
  - intros r w Hr. by apply ensures_usages_in_warehouse.
Qed.

Lemma venture_costs_nil venture (rows : list (num * UsageRow num)) :
  venture_costs venture rows = [] ↔ venture_usages venture rows = [].
Proof.
  unfold venture_costs, venture_usages.
  by destruct (filter _ rows).
Qed.

(** A pass gives a venture a value only if it has a row for it, or the
    value was there. *)
Lemma pass_cell_is_Some usage_type start end_ forecast ventures no_price_msg db
    warehouse venture key old :
  is_Some
    (pass_cell usage_type start end_ forecast ventures no_price_msg db
       warehouse venture key old) →
  is_Some old ∨
  venture_usages venture
    (pass_rows usage_type start end_ forecast ventures warehouse db) ≠ [].
Proof.
  unfold pass_cell, cell_after.
  destruct (venture_usages venture _) as [|u us] eqn:Hus; [|by right].
  apply venture_costs_nil in Hus as Hcs. rewrite Hcs. simpl.
  repeat case_match; by left.
Qed.

Lemma pass_cell_keeps usage_type start end_ forecast ventures no_price_msg db
    warehouse venture key old :
  is_Some old →
  is_Some
    (pass_cell usage_type start end_ forecast ventures no_price_msg db
       warehouse venture key old).
Proof.
  intros [c ->]. unfold pass_cell, cell_after, accumulate, overwrite.
  repeat case_match; eauto.
Qed.

Lemma passes_keep usage_type start end_ forecast ventures no_price_msg db
    (ws : list (option Warehouse)) venture key old :
  is_Some old →
  is_Some
    (foldl (λ old w,
        pass_cell usage_type start end_ forecast ventures no_price_msg db w
          venture key old) old ws).
Proof.
  revert old. induction ws as [|w ws IH]; intros old Hold; [done|].
  simpl. by apply IH, pass_cell_keeps.
Qed.

Lemma passes_is_Some usage_type start end_ forecast ventures no_price_msg db
    (ws : list (option Warehouse)) venture key :
  is_Some
    (foldl (λ old w,
        pass_cell usage_type start end_ forecast ventures no_price_msg db w
          venture key old) None ws) →
  ∃ w, w ∈ ws ∧
    venture_usages venture
      (pass_rows usage_type start end_ forecast ventures w db) ≠ [].
Proof.
  induction ws as [|w ws IH] using rev_ind; [by intros [? ?]|].
  rewrite foldl_snoc. intros [Hold | Hrows]%pass_cell_is_Some.
  - destruct (IH Hold) as (w' & Hw' & Hrows).
    exists w'. split; [|done]. apply elem_of_app. by left.
  - exists w. split; [|done]. apply elem_of_app. right. left.
Qed.

Lemma passes_count_is_Some usage_type start end_ forecast ventures no_price_msg
    db (ws : list (option Warehouse)) warehouse venture old :
  warehouse ∈ ws →
  venture_usages venture
    (pass_rows usage_type start end_ forecast ventures warehouse db) ≠ [] →
  is_Some
    (foldl (λ old w,
        pass_cell usage_type start end_ forecast ventures no_price_msg db w
          venture (count_key_of usage_type warehouse) old) old ws).
Proof.
  intros Hw Hrows. revert old.
  induction ws as [|w ws IH]; intros old; [by apply elem_of_nil in Hw|].
  simpl. apply elem_of_cons in Hw as [<- | Hw]; [|by apply IH].
  apply passes_keep. unfold pass_cell, cell_after. rewrite decide_True by done.
  unfold accumulate. destruct (venture_usages venture _); [done | eauto].
Qed.

Lemma venture_usages_ne venture (rows : list (num * UsageRow num)) :
  venture_usages venture rows ≠ [] ↔
  ∃ pv, pv ∈ rows ∧ pricing_venture pv.2 = venture.
Proof.
  unfold venture_usages. split.
  - destruct (filter _ rows) as [|pv l] eqn:Hl; [done|]. intros _.
    assert (pv ∈ filter (λ pv, pricing_venture pv.2 = venture) rows) as Hin
      by (rewrite Hl; left).
    apply list_elem_of_filter in Hin as [? ?]. by exists pv.
  - intros (pv & Hin & Hv) Hnil. apply fmap_nil_inv in Hnil.
    assert (pv ∈ filter (λ pv, pricing_venture pv.2 = venture) rows) as Hin'
      by by apply list_elem_of_filter.
    rewrite Hnil in Hin'. by apply elem_of_nil in Hin'.
Qed.

(** The ventures of the mapping [usages] returns are the ventures of the
    usage rows of its passes, and every one of them has a column. *)
Theorem report_ventures start end_ ventures usage_type forecast no_price_msg db :
  ∃ result,
    returns (usages start end_ ventures usage_type forecast no_price_msg)
      db result ∧
    (∀ venture m, result !! venture = Some m → m ≠ ∅) ∧
    (∀ venture,
       is_Some (result !! venture) ↔
       ∃ warehouse pv,
         warehouse ∈ report_warehouses usage_type db ∧
         pv ∈ pass_rows usage_type start end_ forecast ventures warehouse db ∧
         pricing_venture pv.2 = venture).
Proof.
  destruct (usages_cells start end_ ventures usage_type forecast
              no_price_msg db) as (result & Hret & Hcells).
  pose proof (ensures_usages start end_ ventures usage_type forecast
                no_price_msg db result db Hret) as Hne.
  exists result. split; [done|]. split; [done|]. intros venture. split.
  - intros [m Hm].
    destruct (map_choose m (Hne venture m Hm)) as (key & c & Hc).
    assert (cell_at result venture key = Some c) as Hcell.
    { apply cell_at_Some. by exists m. }
    rewrite Hcells in Hcell.
    destruct (passes_is_Some usage_type start end_ forecast ventures
                no_price_msg db (report_warehouses usage_type db) venture key)
      as (w & Hw & Hrows); [by eexists|].
    apply venture_usages_ne in Hrows as (pv & Hpv & Hv). by exists w, pv.
  - intros (w & pv & Hw & Hpv & Hv).
    assert (is_Some (cell_at result venture (count_key_of usage_type w)))
      as [c Hc].
    { rewrite Hcells. apply passes_count_is_Some; [done|].
      apply venture_usages_ne. by exists pv. }
    apply cell_at_Some in Hc as (m & Hm & _). by exists m.
Qed.

Lemma is_Some_accumulate old (xs : list num) :
  is_Some (accumulate old xs) ↔ is_Some old ∨ xs ≠ [].
Proof.
  destruct xs as [|x xs]; simpl.
  - split; [by left | by intros [?|?]].
  - split; [by right | eauto].
Qed.

Lemma is_Some_overwrite old msg (xs : list num) :
  is_Some (overwrite old msg xs) ↔ is_Some old ∨ xs ≠ [].
Proof.
  destruct xs as [|x xs]; simpl.
  - split; [by left | by intros [?|?]].
  - split; [by right | eauto].
Qed.

(** The column identifiers of a pass are those of the identifier of its
    warehouse. *)
Lemma pass_keys_of_id usage_type warehouse warehouse' :
  pass_id warehouse = pass_id warehouse' →
  count_key_of usage_type warehouse = count_key_of usage_type warehouse' ∧
  cost_key_of usage_type warehouse = cost_key_of usage_type warehouse'.
Proof.
  destruct warehouse as [w|], warehouse' as [w'|]; try done.
  intros [= Hid]. simpl. by rewrite Hid.
Qed.

(** A pass gives the count of a warehouse a value exactly when it gives
    one to its cost. *)
Lemma pass_cell_pair usage_type start end_ forecast ventures no_price_msg db
    warehouse w venture old1 old2 :
  (is_Some old1 ↔ is_Some old2) →
  is_Some
    (pass_cell usage_type start end_ forecast ventures no_price_msg db w
       venture (count_key_of usage_type warehouse) old1) ↔
  is_Some
    (pass_cell usage_type start end_ forecast ventures no_price_msg db w
       venture (cost_key_of usage_type warehouse) old2).
Proof.
  intros Hold.
  pose proof (count_key_ne_cost_key usage_type) as Hcs.
  pose proof (count_key_ne_total usage_type) as Hct.
  pose proof (cost_key_ne_total usage_type) as Hst.
  destruct (decide (pass_id warehouse = pass_id w)) as [Hid|Hid].
  - apply (pass_keys_of_id usage_type) in Hid as [-> ->].
    unfold pass_cell, cell_after.
    rewrite decide_True by done.
    rewrite (decide_False (P := cost_key_of usage_type w = count_key_of usage_type w))
      by (intros Heq; symmetry in Heq; by apply Hcs in Heq).
    rewrite decide_True by done.
    rewrite is_Some_accumulate.
    destruct (pass_message _ _ _ _ _ _);
      rewrite ?is_Some_overwrite, ?is_Some_accumulate, ?Hold; [done|].
    assert (venture_costs venture
              (pass_rows usage_type start end_ forecast ventures w db) ≠ [] ↔
            venture_usages venture
              (pass_rows usage_type start end_ forecast ventures w db) ≠ [])
      as ->; [|done].
    by rewrite venture_costs_nil.
  - rewrite !pass_cell_other; try done; intros Heq;
      first [ by apply Hcs in Heq
            | symmetry in Heq; by apply Hcs in Heq
            | apply Hid; by apply cost_key_inj in Heq
            | apply Hid; by apply count_key_inj in Heq ].
Qed.

(** In the mapping [usages] returns, a venture has the count of a
    warehouse exactly when it has its cost. *)
Theorem count_and_cost_together start end_ ventures usage_type forecast
    no_price_msg db :
  ∃ result,
    returns (usages start end_ ventures usage_type forecast no_price_msg)
      db result ∧
    ∀ venture warehouse,
      is_Some (cell_at result venture (count_key_of usage_type warehouse)) ↔
      is_Some (cell_at result venture (cost_key_of usage_type warehouse)).
Proof.
  destruct (usages_cells start end_ ventures usage_type forecast
              no_price_msg db) as (result & Hret & Hcells).
  exists result. split; [done|]. intros venture warehouse.
  rewrite !Hcells. unfold report_cell.
  assert (is_Some (@None (cell num)) ↔ is_Some (@None (cell num))) as Hold
    by done.
  revert Hold. generalize (@None (cell num)) at 1 3 as old1.
  generalize (@None (cell num)) as old2.
  induction (report_warehouses usage_type db) as [|w ws IH];
    intros old2 old1 Hold; [done|].
  simpl. by apply IH, pass_cell_pair.
Qed.
End Ventures.

(** * Complete prices, no prices, no warehouses *)

Section EdgeCases.
Context {num : Type} `{PyNum num} `{BaseReportPlugin num}.
Implicit Types (db : DB num) (usage_type : UsageType).
Implicit Types (warehouse : option Warehouse).
Implicit Types (start : date) (ventures : list Venture).
Implicit Types (forecast no_price_msg : bool).

Lemma bind_returns {A B} (m : M num A) (f : A → M num B) db a :
  returns m db a → (m ≫= f) db = f a db.
Proof. unfold returns, mbind, M_bind, bind. by intros ->. Qed.

Lemma for_each_same_in {A S} (body1 body2 : S → A → M num S) l s db :
  (∀ s x, x ∈ l → body1 s x db = body2 s x db) →
  (∀ s x, read_only (body1 s x)) →
  for_each body1 l s db = for_each body2 l s db.
Proof.
  intros Hbody Hro. revert s. induction l as [|x l IH]; intros s; simpl; [done|].
  apply (bind_same (body1 s x) (body2 s x)).
  - apply Hbody. left.
  - apply Hro.
  - intros s'. apply IH. intros s'' y Hy. apply Hbody. by right.
Qed.

(** When [_incomplete_price] finds the price complete for every warehouse
    of the report, [no_price_msg] makes no difference to [usages]. *)
Theorem complete_prices_no_message start end_ ventures usage_type forecast db :
  (∀ warehouse,
     warehouse ∈ report_warehouses usage_type db →
     returns (_incomplete_price usage_type start end_ warehouse) db None) →
  usages start end_ ventures usage_type forecast true db
  = usages start end_ ventures usage_type forecast false db.
Proof.
  intros Hcomplete. unfold usages, _get_usages_per_warehouse.
  rewrite !(bind_returns _ _ db _ (returns_warehouses_of usage_type db)).
  apply for_each_same_in.
  - intros result warehouse Hw. unfold usages_in_warehouse.
    rewrite (bind_returns _ _ db None (Hcomplete warehouse Hw)).
    by rewrite (bind_returns (ret None) _ db None).
  - intros result warehouse. apply read_only_usages_in_warehouse.
Qed.

Lemma returns_total_cost start end_ ventures usage_type forecast db :
  returns (total_cost start end_ ventures usage_type forecast) db
    (cost_of_report_decimal usage_type start end_ ventures forecast db).
Proof.
  unfold total_cost.
  eapply returns_bind; [apply returns_total_cost_by_warehouses|].
  rewrite last_cost_of_report. apply returns_ret.
Qed.

(** Without a price record that overlaps the range,
    [_get_total_cost_by_warehouses] reports the usage [0] and the cost
    [Decimal(0)] for every warehouse: unlike [usages], it counts no usage
    then. The total cost of a usage type that is not by warehouse is
    [Decimal(0)]. *)
Theorem total_cost_without_prices start end_ ventures usage_type forecast db :
  Forall (λ up, ¬ overlaps start end_ up) (usageprice_set usage_type db) →
  returns
    (_get_total_cost_by_warehouses start end_ ventures usage_type forecast) db
    (mjoin ((λ _, [n0; D n0]) <$> report_warehouses usage_type db)
     ++ if by_warehouse usage_type
        then [foldl (λ acc _, nadd acc (D n0)) (D n0)
                (report_warehouses usage_type db)]
        else []) ∧
  (by_warehouse usage_type = false →
   returns (total_cost start end_ ventures usage_type forecast) db (D n0)).
Proof.
  intros Hno.
  assert (∀ w, warehouse_usage usage_type start end_ ventures db w = n0)
    as Husage.
  { intros w. unfold warehouse_usage.
    by rewrite report_prices_no_overlap. }
  assert (∀ w, warehouse_cost usage_type start end_ ventures forecast db w = n0)
    as Hcost.
  { intros w. unfold warehouse_cost.
    by rewrite report_prices_no_overlap. }
  split.
  - pose proof (returns_total_cost_by_warehouses usage_type start end_
                  ventures forecast db) as Hv.
    assert (∀ ws : list (option Warehouse),
      foldl (λ acc w,
          nadd acc (D (warehouse_cost usage_type start end_ ventures forecast db w)))
        (D n0) ws
      = foldl (λ acc _, nadd acc (D n0)) (D n0) ws) as Hfold.
    { intros ws. apply foldl_ext_in. intros acc w _. by rewrite Hcost. }
    rewrite Hfold in Hv.
    assert ((λ w, [warehouse_usage usage_type start end_ ventures db w;
                   D (warehouse_cost usage_type start end_ ventures forecast db w)])
              <$> report_warehouses usage_type db
            = (λ _, [n0; D n0]) <$> report_warehouses usage_type db) as Hmap.
    { apply list_fmap_ext. intros i w _. by rewrite Husage, Hcost. }
    by rewrite Hmap in Hv.
  - intros Hbw.
    pose proof (returns_total_cost start end_ ventures usage_type forecast db)
      as Hv.
    unfold cost_of_report_decimal in Hv. by rewrite Hbw, Hcost in Hv.
Qed.

(** A usage type by warehouse, and no warehouse in the report: [usages]
    returns the empty mapping, [total_cost] returns [Decimal(0)] and the
    schema has the total-cost column alone. *)
Theorem report_without_warehouses start end_ ventures usage_type forecast
    no_price_msg db :
  by_warehouse usage_type = true →
  get_warehouses db = [] →
  returns (usages start end_ ventures usage_type forecast no_price_msg) db ∅ ∧
  returns (total_cost start end_ ventures usage_type forecast) db (D n0) ∧
  returns (schema usage_type) db
    [(total_cost_fmt (ut_id usage_type),
      {| name := ut_name usage_type +:+ " total cost";
         currency := true; total_cost_flag := true |})].
Proof.
  intros Hbw Hws.
  assert (report_warehouses usage_type db = []) as Hnone.
  { unfold report_warehouses. by rewrite Hbw, Hws. }
  split; [|split].
  - unfold returns, usages, _get_usages_per_warehouse.
    rewrite (bind_returns _ _ db _ (returns_warehouses_of usage_type db)).
    by rewrite Hnone.
  - pose proof (returns_total_cost start end_ ventures usage_type forecast db)
      as Hv.
    unfold cost_of_report_decimal in Hv. by rewrite Hbw, Hnone in Hv.
  - pose proof (schema_columns_returns usage_type db) as Hv.
    unfold schema_columns in Hv. rewrite Hbw, Hws in Hv. apply Hv.
    intros _. constructor.
Qed.
End EdgeCases.

(** ** The total costs and the schema, side by side *)

Section Alignment.
Context {num : Type} `{PyNum num} `{BaseReportPlugin num}.

Lemma length_pairs {A B} (f g : A → B) (l : list A) :
  length (mjoin ((λ x, [f x; g x]) <$> l)) = (2 * length l)%nat.
Proof. induction l as [|x l IH]; csimpl; [done|]. rewrite IH. lia. Qed.

Lemma lookup_pairs {A B} (f g : A → B) (l : list A) (rest : list B) i x :
  l !! i = Some x →
  (mjoin ((λ x, [f x; g x]) <$> l) ++ rest) !! (2 * i)%nat = Some (f x) ∧
  (mjoin ((λ x, [f x; g x]) <$> l) ++ rest) !! (2 * i + 1)%nat = Some (g x).
Proof.
  revert i. induction l as [|y l IH]; intros i Hi; [done|].
  destruct i as [|i]; simpl in Hi.
  - inversion Hi; subst. by split.
  - replace (2 * S i)%nat with (S (S (2 * i))) by lia.
    replace (S (S (2 * i)) + 1)%nat with (S (S (2 * i + 1))) by lia.
    simpl. by apply IH.
Qed.

Lemma schema_keys_pairs usage_type db :
  (schema_columns usage_type (get_warehouses db)).*1
  = mjoin ((λ w, [count_key_of usage_type w; cost_key_of usage_type w])
           <$> report_warehouses usage_type db)
    ++ if by_warehouse usage_type then [total_cost_fmt (ut_id usage_type)]
       else [].
Proof.
  unfold schema_columns, report_warehouses.
  destruct (by_warehouse usage_type); [|reflexivity].
  rewrite fmap_app. f_equal.
  induction (get_warehouses db) as [|w ws IH]; [done|].
  csimpl. by rewrite IH.
Qed.

(** The list of [_get_total_cost_by_warehouses] and the schema line up:
    they have the same length, the usage and the cost of the i-th
    warehouse of the report stand at the places [2i] and [2i+1] where the
    schema has its count and cost columns, and for a usage type by
    warehouse the total cost stands last, as the total-cost column does. *)
Theorem total_costs_match_schema start end_ ventures usage_type forecast db :
  (by_warehouse usage_type = true → NoDup (wh_id <$> get_warehouses db)) →
  ∃ costs columns,
    returns
      (_get_total_cost_by_warehouses start end_ ventures usage_type forecast)
      db costs ∧
    returns (schema usage_type) db columns ∧
    length costs = length columns ∧
    (∀ (i : nat) warehouse,
       report_warehouses usage_type db !! i = Some warehouse →
       columns.*1 !! (2 * i)%nat = Some (count_key_of usage_type warehouse) ∧
       costs !! (2 * i)%nat
       = Some (warehouse_usage usage_type start end_ ventures db warehouse) ∧
       columns.*1 !! (2 * i + 1)%nat = Some (cost_key_of usage_type warehouse) ∧
       costs !! (2 * i + 1)%nat
       = Some (D (warehouse_cost usage_type start end_ ventures forecast db
                    warehouse))) ∧
    (by_warehouse usage_type = true →
     last columns.*1 = Some (total_cost_fmt (ut_id usage_type)) ∧
     last costs
     = Some (cost_of_report_decimal usage_type start end_ ventures forecast db)).
Proof.
  intros Hnd. eexists _, _.
  split; [apply returns_total_cost_by_warehouses|].
  split; [by apply schema_columns_returns|].
  split; [|split].
  - rewrite <- (length_fmap fst (schema_columns _ _)), schema_keys_pairs.
    rewrite !length_app, !length_pairs.
    by destruct (by_warehouse usage_type).
  - intros i warehouse Hi. rewrite schema_keys_pairs.
    destruct (lookup_pairs (count_key_of usage_type) (cost_key_of usage_type)
      _ (if by_warehouse usage_type then [total_cost_fmt (ut_id usage_type)]
         else []) i warehouse Hi) as [Hcount Hcost].
    destruct (lookup_pairs
      (warehouse_usage usage_type start end_ ventures db)
      (λ w, D (warehouse_cost usage_type start end_ ventures forecast db w))
      _ (if by_warehouse usage_type
         then [foldl (λ acc w,
                 nadd acc
                   (D (warehouse_cost usage_type start end_ ventures forecast db w)))
                 (D n0) (report_warehouses usage_type db)]
         else []) i warehouse Hi) as [Husage Hprice].
    done.
  - intros Hbw. rewrite last_cost_of_report, schema_keys_pairs, Hbw.
    split; [apply last_snoc | done].
Qed.
End Alignment.

(** * Two runs on the same records *)

Section Sorting.
Context {num : Type}.
Implicit Types (up : UsagePrice num) (l : list (UsagePrice num)).




End Sorting.

Section Alike.
Context {num : Type} `{PyNum num}.






End Alike.

Section Determinism.
Context {num : Type} `{PyNum num} `{BaseReportPlugin num}.
Implicit Types (db : DB num) (usage_type : UsageType).
Implicit Types (warehouse : option Warehouse).
Implicit Types (start : date) (ventures : list Venture).
Implicit Types (forecast no_price_msg : bool).
















End Determinism.

(** * More sample runs *)

Section MoreExamples.
Import Sample.

Lemma incomplete_price_any_order_split :
  (_incomplete_price power 1 10 None split).1
  = (_incomplete_price power 1 10 None
       (store [price_record 7 6 10 4 5 None; price_record 7 1 5 2 3 None] [])).1.
Proof.
  apply (incomplete_price_any_order power 1 10 None split).
  simpl. apply perm_swap.
Defined.

Lemma no_price_iff_no_record_split :
  returns (_incomplete_price power 20 30 None) split (Some "No price") ∧
  Forall (λ up, ¬ overlaps 20 30 up) (prices_of power None split).
Proof.
  destruct (@no_price_iff_no_record Z power 20 30 None split) as [Hfwd Hbwd].
  assert (Forall (λ up : UsagePrice Z, ¬ overlaps 20 30 up)
            (prices_of power None split)) as Hnone.
  { replace (prices_of power None split)
      with [price_record 7 1 5 2 3 None; price_record 7 6 10 4 5 None]
      by (vm_compute; reflexivity).
    repeat constructor; unfold overlaps; simpl; lia. }
  split.
  - apply Hfwd, Hnone.
  - apply Hbwd; [lia | | apply Hfwd, Hnone].
    replace (filter (overlaps 20 30) (prices_of power None split))
      with (@nil (UsagePrice Z)) by (vm_compute; reflexivity).
    constructor.
Defined.

Lemma incomplete_price_adjacent_split :
  returns (_incomplete_price power 1 10 None) split None.
Proof.
  destruct (@incomplete_price_adjacent Z power 1 5 10 None split)
    as [Hnone _]; [lia | lia | |].
  - replace (prices_of power None split)
      with [price_record 7 1 5 2 3 None; price_record 7 6 10 4 5 None]
      by (vm_compute; reflexivity).
    repeat constructor; simpl; lia.
  - apply Hnone; vm_compute; reflexivity.
Defined.

Lemma total_cost_column_is_sum_racks :
  ∃ result,
    returns (usages (H:=PyNum_Z) (H0:=base) 1 10 [] rack false false)
      racks result ∧
    ∀ venture,
      cell_num (H:=PyNum_Z) (cell_at result venture "ut_8_total_cost")
      = cell_num (H:=PyNum_Z) (cell_at result venture "ut_8_cost_wh_1")
        + cell_num (H:=PyNum_Z) (cell_at result venture "ut_8_cost_wh_2").
Proof.
  destruct (@total_cost_column_is_sum Z PyNum_Z base 1 10 [] rack false false
              racks) as (result & Hret & Hsum).
  { reflexivity. }
  { apply (bool_decide_unpack _). vm_compute. exact I. }
  { intros x y z. simpl. lia. }
  { intros x. simpl. lia. }
  { intros x. simpl. lia. }
  exists result. split; [exact Hret|]. intros venture.
  replace "ut_8_total_cost" with (total_cost_fmt (ut_id rack))
    by (vm_compute; reflexivity).
  rewrite (Hsum venture). reflexivity.
Defined.

Lemma complete_prices_no_message_split :
  usages (H:=PyNum_Z) (H0:=base) 1 10 [] power false true split
  = usages (H:=PyNum_Z) (H0:=base) 1 10 [] power false false split.
Proof.
  apply (@complete_prices_no_message Z PyNum_Z base 1 10 [] power false split).
  intros warehouse Hin. apply list_elem_of_singleton in Hin. subst warehouse.
  vm_compute. reflexivity.
Defined.

Lemma total_cost_without_prices_racks :
  returns
    (_get_total_cost_by_warehouses (H:=PyNum_Z) (H0:=base) 20 30 [] rack false)
    racks [0; 0; 0; 0; 0].
Proof.
  destruct (@total_cost_without_prices Z PyNum_Z base 20 30 [] rack false racks)
    as [Hlist _]; [|exact Hlist].
  replace (usageprice_set rack racks) with [price_record 8 1 5 2 3 (Some 1)]
    by (vm_compute; reflexivity).
  repeat constructor; unfold overlaps; simpl; lia.
Defined.

Lemma report_without_warehouses_rack :
  returns (usages (H:=PyNum_Z) (H0:=base) 1 10 [] rack false true)
    (store [price_record 8 1 5 2 3 (Some 1)] []) ∅ ∧
  returns (total_cost (H:=PyNum_Z) (H0:=base) 1 10 [] rack false)
    (store [price_record 8 1 5 2 3 (Some 1)] []) 0.
Proof.
  destruct (@report_without_warehouses Z PyNum_Z base 1 10 [] rack false true
              (store [price_record 8 1 5 2 3 (Some 1)] []))
    as (Husages & Htotal & _); [reflexivity | reflexivity |].
  split; [exact Husages | exact Htotal].
Defined.

Lemma total_costs_match_schema_racks :
  ∃ costs columns,
    returns
      (_get_total_cost_by_warehouses (H:=PyNum_Z) (H0:=base) 1 10 [] rack false)
      racks costs ∧
    returns (schema (H0:=base) rack) racks columns ∧
    length costs = length columns ∧
    columns.*1 !! 2%nat = Some "ut_8_count_wh_2" ∧
    costs !! 2%nat = Some 0.
Proof.
  destruct (@total_costs_match_schema Z PyNum_Z base 1 10 [] rack false racks)
    as (costs & columns & Hcosts & Hcolumns & Hlen & Hat & _).
  { intros _. apply (bool_decide_unpack _). vm_compute. exact I. }
  exists costs, columns.
  destruct (Hat 1%nat (Some wh_b)) as (Hkey & Husage & _); [reflexivity|].
  repeat split; [exact Hcosts | exact Hcolumns | exact Hlen | exact Hkey |].
  etrans; [exact Husage|]. vm_compute. reflexivity.
Defined.

End MoreExamples.
